(** * WeatherNow backend: cache, weather rules and HTTP handler

    A shallow embedding of
      - [instances/cache]                    (class [SimpleCache]),
      - [services/weather/weatherRules]      ([weatherGet], [fetchWeatherFromAPI]),
      - [api/v1/external/weather/controller] ([getHandler]),
    together with the properties of the retrieval policy.

    Conventions.
      - Epoch milliseconds ([Date.now()]) are integers, [Z].
      - A JavaScript number is a double: [NaN], an infinity, or a rational
        that is a binary64 value.  [*] and [/] round their exact result to
        the nearest double, ties to even; [<], [>] and [Math.round] are
        exact.  Zero has no sign.
      - A JavaScript [Map<string, _>] is a [gmap string _].
      - Code that throws returns [inl error]; mutations made before the throw
        stay in the state.
      - One call of [weatherGet] is followed from entry to exit; what other
        requests or the timer do to the cache while it awaits the upstream
        answer is outside the model. *)

From Stdlib Require Import ZArith QArith Qround Qabs Qpower Lqa String.
From Stdlib Require PrimFloat FloatOps SpecFloat.
From stdpp Require Import base option strings gmap fin_maps.

Local Open Scope string_scope.
Local Open Scope Z_scope.

(** ** instances/cache *)

Module SimpleCache.

(** [interface CacheEntry<T>] *)
Record CacheEntry (T : Type) : Type := mkEntry {
  value : T;
  expiry : Z
}.
Arguments mkEntry {T} _ _.
Arguments value {T} _.
Arguments expiry {T} _.

(** [class SimpleCache]: the private fields [cache] and [ttl]. *)
Record t (T : Type) : Type := mk {
  cache : gmap string (CacheEntry T);
  ttl : Z
}.
Arguments mk {T} _ _.
Arguments cache {T} _.
Arguments ttl {T} _.

Section Methods.
Context {T : Type}.

(** [constructor(ttl)]: an empty map, and the time to live turned into
    milliseconds.  [startCleanup] registers [sweep] below with the timer. *)
Definition new (ttl_seconds : Z) : t T :=
  mk ∅ (ttl_seconds * 1000).

(** [set(key, value)]; [now] is what its [Date.now()] returns. *)
Definition set (now : Z) (key : string) (v : T) (c : t T) : t T :=
  let expiry := now + ttl c in
  mk (<[key := mkEntry v expiry]> (cache c)) (ttl c).

(** [get(key)]; [now] is what its [Date.now()] returns (the clock is read
    only when the key is in the map).  The second component is the cache
    after the call. *)
Definition get (now : Z) (key : string) (c : t T) : option T * t T :=
  match cache c !! key with
  | None => (None, c)
  | Some entry =>
      if now >? expiry entry
      then (None, mk (base.delete key (cache c)) (ttl c))
      else (Some (value entry), c)
  end.

(** [delete(key)] *)
Definition delete (key : string) (c : t T) : t T :=
  mk (base.delete key (cache c)) (ttl c).

(** [clear()] *)
Definition clear (c : t T) : t T :=
  mk ∅ (ttl c).

(** The callback of [startCleanup], run by the timer at time [now]: every
    entry with [now > entry.expiry] is deleted. *)
Definition sweep (now : Z) (c : t T) : t T :=
  mk (filter (λ kv, ¬ (now > expiry kv.2)) (cache c)) (ttl c).

(** The calls a client (or the timer) can make on a cache, each with the
    clock value it reads. *)
Inductive Op : Type :=
| OpSet (now : Z) (key : string) (v : T)
| OpGet (now : Z) (key : string)
| OpDelete (key : string)
| OpClear
| OpSweep (now : Z).

Definition step (c : t T) (o : Op) : t T :=
  match o with
  | OpSet now key v => set now key v c
  | OpGet now key => (get now key c).2
  | OpDelete key => delete key c
  | OpClear => clear c
  | OpSweep now => sweep now c
  end.

Definition run (ops : list Op) (c : t T) : t T :=
  foldl step c ops.

(** [sets_key key o]: [o] is a [set] on [key]. *)
Definition sets_key (key : string) (o : Op) : bool :=
  match o with
  | OpSet _ k _ => bool_decide (k = key)
  | _ => false
  end.

(** [keeps key exp o]: [o] leaves alone an entry under [key] that expires
    at [exp]: it is a call on another key, or a [get] or a sweep that reads
    a clock value not after [exp]. *)
Definition keeps (key : string) (exp : Z) (o : Op) : bool :=
  match o with
  | OpSet _ k _ => negb (bool_decide (k = key))
  | OpGet now k => negb (bool_decide (k = key)) || (now <=? exp)
  | OpDelete k => negb (bool_decide (k = key))
  | OpClear => false
  | OpSweep now => now <=? exp
  end.

End Methods.
Arguments Op : clear implicits.

End SimpleCache.

(** ** JavaScript values used by the service *)

(** An [Error] object: its [message] and the ad hoc [code] field
    ([None] when the field was never assigned). *)
Record JsError : Type := mkError {
  message : string;
  code : option string
}.

(** [if (error.code)]: the field is set to a non-empty string. *)
Definition has_code (e : JsError) : bool :=
  match code e with
  | Some c => negb (String.eqb c "")
  | None => false
  end.

(** [error.code === c] *)
Definition code_is (e : JsError) (c : string) : bool :=
  match code e with
  | Some c' => String.eqb c' c
  | None => false
  end.

(** ** JavaScript numbers

    A number is an IEEE 754 binary64 value.  The finite ones are rationals;
    [to_double] is the rounding every arithmetic operation ends with. *)

Inductive JsNumber : Type :=
| NaN
| Infinity (negative : bool)
| Finite (q : Q).

Definition Qlt_bool (x y : Q) : bool := negb (Qle_bool y x).

(** [ilog2 x], for [x > 0]: the integer [k] with [2^k <= x < 2^(k+1)]. *)
Definition ilog2 (x : Q) : Z :=
  let k := Z.log2 (Qnum x) - Z.log2 (Zpos (Qden x)) in
  if Qle_bool (2 ^ k) x then k else k - 1.

(** The nearest integer, ties to the even one. *)
Definition round_half_even (y : Q) : Z :=
  let f := Qfloor y in
  match (y - inject_Z f ?= 1 # 2)%Q with
  | Lt => f
  | Gt => f + 1
  | Eq => if Z.even f then f else f + 1
  end.

(** The exponent of the last place of the doubles around [x]: 53 binary
    digits, and no exponent below -1074 (the subnormal numbers). *)
Definition quantum (x : Q) : Z := Z.max (ilog2 (Qabs x) - 52) (-1074).

(** The double nearest to [x], ties to the even significand; an infinity
    from [2^1024] on. *)
Definition to_double (x : Q) : JsNumber :=
  if Qeq_bool x 0 then Finite 0 else
  let e := quantum x in
  let m := round_half_even (x / 2 ^ e) in
  let r := (inject_Z m * 2 ^ e)%Q in
  if Qle_bool (2 ^ 1024) (Qabs r) then Infinity (Qlt_bool x 0)
  else Finite (Qred r).

(** [a < b]; [a > b] is [js_lt b a].  Every comparison with [NaN] is
    false. *)
Definition js_lt (a b : JsNumber) : bool :=
  match a, b with
  | NaN, _ | _, NaN => false
  | Infinity s, Infinity t => s && negb t
  | Infinity s, Finite _ => s
  | Finite _, Infinity t => negb t
  | Finite x, Finite y => Qlt_bool x y
  end.

(** [a * b] *)
Definition js_mul (a b : JsNumber) : JsNumber :=
  match a, b with
  | NaN, _ | _, NaN => NaN
  | Infinity s, Infinity t => Infinity (xorb s t)
  | Infinity s, Finite y =>
      if Qeq_bool y 0 then NaN else Infinity (xorb s (Qlt_bool y 0))
  | Finite x, Infinity t =>
      if Qeq_bool x 0 then NaN else Infinity (xorb (Qlt_bool x 0) t)
  | Finite x, Finite y => to_double (x * y)
  end.

(** [a / b].  The code divides by the literal 10 only; a zero divisor is
    taken as positive. *)
Definition js_div (a b : JsNumber) : JsNumber :=
  match a, b with
  | NaN, _ | _, NaN => NaN
  | Infinity _, Infinity _ => NaN
  | Infinity s, Finite y => Infinity (xorb s (Qlt_bool y 0))
  | Finite _, Infinity _ => Finite 0
  | Finite x, Finite y =>
      if Qeq_bool y 0
      then (if Qeq_bool x 0 then NaN else Infinity (Qlt_bool x 0))
      else to_double (x / y)
  end.

(** The nearest integer to a rational, ties towards plus infinity. *)
Definition round_half_up (x : Q) : Z := Qfloor (x + (1 # 2))%Q.

(** [Math.round] *)
Definition Math_round (a : JsNumber) : JsNumber :=
  match a with
  | Finite x => Finite (inject_Z (round_half_up x))
  | _ => a
  end.

(** The doubles of the processor, read as numbers of the model; they serve
    to compare [to_double] with the hardware on samples. *)
Module Hardware.
Import PrimFloat SpecFloat.

Definition of_spec_float (f : spec_float) : JsNumber :=
  match f with
  | S754_zero _ => Finite 0
  | S754_infinity negative => Infinity negative
  | S754_nan => NaN
  | S754_finite negative m e =>
      Finite (Qred ((if negative then -1 else 1) * inject_Z (Zpos m) * 2 ^ e))
  end.

Definition of_float (f : float) : JsNumber := of_spec_float (FloatOps.Prim2SF f).

Definition times_ten (f : float) : float := (f * 10)%float.
Definition tenth (f : float) : float := (f / 10)%float.

#[local] Set Warnings "-inexact-float".
Definition samples : list float :=
  [21.34; -63.650000000000006; 0.1; 0.35; 1.005; 70.4; 59.95; -89.95;
   -636.5; 213; -636; 599.5; 2.5; -0.04; 0.049999999999999996;
   123456789.123; 1e22; 1e308; 1.7976931348623157e308;
   1e-310; 1e-320; 4.9e-324]%float.
#[local] Set Warnings "inexact-float".

Definition samples_decimal : list Q :=
  [21.34; -63.650000000000006; 0.1; 0.35; 1.005; 70.4; 59.95; -89.95;
   -636.5; 213; -636; 599.5; 2.5; -0.04; 0.049999999999999996;
   123456789.123; 1e22; 1e308; 1.7976931348623157e308;
   1e-310; 1e-320; 4.9e-324]%Q.

End Hardware.

(** ** services/weather/weatherTypes

    One module per interface, so that the fields keep their names. *)

Module WeatherGetRequest.
Record t : Type := mk {
  location : string;
  unit : string
}.
End WeatherGetRequest.

Module WeatherResponse.
Record t : Type := mk {
  temperature : JsNumber;
  unit : string;
  location : string;
  timestamp : string;
  status : string
}.
End WeatherResponse.

Module CachedWeatherData.
Record t : Type := mk {
  temperature : JsNumber;
  unit : string;
  location : string;
  timestamp : string;
  cacheTime : Z
}.
End CachedWeatherData.

(** The two nested objects [current] and [location] are flattened.  The
    code does not check the payload, so each field holds what the code's use
    of it evaluates to: [temp_c] and [temp_f] the number the field converts
    to ([NaN] for a missing field or one that is no number), the others the
    text of the field ([region] empty when the field is falsy).  A payload
    without the object [current] or [location] is a payload that cannot be
    read, see [FetchOutcome]. *)
Module ExternalWeatherAPIResponse.
Record t : Type := mk {
  temp_c : JsNumber;
  temp_f : JsNumber;
  last_updated : string;
  name : string;
  region : string;
  country : string
}.
End ExternalWeatherAPIResponse.

(** ** The surroundings of one call *)

(** The fields of [config] the two modules read.  The module [@/config] is
    not among the sources, so its values are parameters.  An unset and an
    empty [apiKey] are both falsy and are both the empty string here. *)
Record Config : Type := mkConfig {
  weather_apiKey : string;
  weather_apiUrl : string;
  cache_ttl : Z;
  cache_checkPeriod : Z
}.

(** What [await fetch(url)] followed by [await response.json()] can give:
    the [fetch] promise rejects, or it resolves to a response with a status
    whose body cannot be read ([json()] rejects, or reading [data.current]
    or [data.location] throws) or gives a payload. *)
Inductive FetchOutcome : Type :=
| FetchRejected (e : JsError)
| FetchResponse (http_status : Z) (json : JsError + ExternalWeatherAPIResponse.t).

(** [response.ok] *)
Definition ok (http_status : Z) : bool :=
  (200 <=? http_status) && (http_status <=? 299).

(** Everything one call of [weatherGet] takes from outside: the value of
    each [Date.now()] it can reach (every call site runs at most once),
    the upstream server, and the two platform functions. *)
Record Env : Type := mkEnv {
  now_get : Z;          (* Date.now() inside weatherCache.get *)
  now_weatherGet : Z;   (* const now = Date.now() *)
  now_cacheTime : Z;    (* cacheTime: Date.now() *)
  now_set : Z;          (* Date.now() inside weatherCache.set *)
  upstream : string → FetchOutcome;
  (* None: URIError, the string has a lone surrogate *)
  encodeURIComponent : string → option string;
  (* new Date(s).toISOString(); None: RangeError, invalid time value *)
  Date_toISOString : string → option string
}.

(** The clock does not run backwards between the four reads. *)
Definition clock_monotone (env : Env) : Prop :=
  now_get env <= now_weatherGet env ∧
  now_weatherGet env <= now_cacheTime env ∧
  now_cacheTime env <= now_set env.

(** The mutable state: the singleton [weatherCache], and the URLs handed to
    [fetch] so far, latest first. *)
Record World : Type := mkWorld {
  weatherCache : SimpleCache.t CachedWeatherData.t;
  requests : list string
}.

(** [export const weatherCache = new SimpleCache(config.cache.ttl)] *)
Definition initial_world (cfg : Config) : World :=
  mkWorld (SimpleCache.new (cache_ttl cfg)) [].

(** ** A state and exception monad *)

Definition M (A : Type) : Type := World → (JsError + A) * World.

Definition ret {A} (a : A) : M A := λ w, (inr a, w).

Definition throw {A} (e : JsError) : M A := λ w, (inl e, w).

Definition bind {A B} (m : M A) (k : A → M B) : M B :=
  λ w, match m w with
       | (inr a, w') => k a w'
       | (inl e, w') => (inl e, w')
       end.

(** [try { m } catch (error) { handler(error) }] *)
Definition try_catch {A} (m : M A) (handler : JsError → M A) : M A :=
  λ w, match m w with
       | (inr a, w') => (inr a, w')
       | (inl e, w') => handler e w'
       end.

Notation "'let*' x ':=' m 'in' k" := (bind m (λ x, k))
  (at level 10, x name, m at level 100, k at level 200).

(** ** services/weather/weatherRules *)

Section WeatherRules.
Variable cfg : Config.
Variable env : Env.

(** [weatherCache.get<CachedWeatherData>(cacheKey)] *)
Definition weatherCache_get (key : string) : M (option CachedWeatherData.t) :=
  λ w, let '(r, c) := SimpleCache.get (now_get env) key (weatherCache w) in
       (inr r, mkWorld c (requests w)).

(** [weatherCache.set(cacheKey, cacheData)] *)
Definition weatherCache_set (key : string) (v : CachedWeatherData.t) : M () :=
  λ w, (inr (), mkWorld (SimpleCache.set (now_set env) key v (weatherCache w))
                        (requests w)).

(** [await fetch(url)], with the later [response.json()] *)
Definition fetch (url : string) : M FetchOutcome :=
  λ w, (inr (upstream env url), mkWorld (weatherCache w) (url :: requests w)).

(** [`weather_${location}_${unit}`] *)
Definition cacheKey (location unit : string) : string :=
  "weather_" ++ location ++ "_" ++ unit.

(** [`${apiUrl}/current.json?key=${apiKey}&q=${encodeURIComponent(location)}&aqi=no`] *)
Definition request_url (apiUrl apiKey location : string) : option string :=
  match encodeURIComponent env location with
  | Some encoded =>
      Some (apiUrl ++ "/current.json?key=" ++ apiKey ++ "&q=" ++ encoded ++ "&aqi=no")
  | None => None
  end.

(** The object literal [cacheData]; [now] is what its [Date.now()] returns. *)
Definition cacheData (weatherResponse : WeatherResponse.t) (now : Z)
  : CachedWeatherData.t :=
  CachedWeatherData.mk
    (WeatherResponse.temperature weatherResponse)
    (WeatherResponse.unit weatherResponse)
    (WeatherResponse.location weatherResponse)
    (WeatherResponse.timestamp weatherResponse)
    now.

(** The body of the [try] block of [fetchWeatherFromAPI]. *)
Definition fetchWeatherFromAPI_try (apiUrl apiKey location unit : string)
  : M WeatherResponse.t :=
  match request_url apiUrl apiKey location with
  | None => throw (mkError "URI malformed" None)
  | Some url =>
  let* response := fetch url in
  match response with
  | FetchRejected e => throw e
  | FetchResponse http_status json =>
      if negb (ok http_status) then
        if http_status =? 400 then
          throw (mkError "locationNotFound" (Some "LOCATION_NOT_FOUND"))
        else
          throw (mkError "weatherApiRequestFailed" (Some "WEATHER_API_ERROR"))
      else
        match json with
        | inl e => throw e
        | inr data =>
            let temperature :=
              if String.eqb unit "fahrenheit"
              then ExternalWeatherAPIResponse.temp_f data
              else ExternalWeatherAPIResponse.temp_c data in
            let unitSymbol := if String.eqb unit "fahrenheit" then "°F" else "°C" in
            let formattedLocation :=
              ExternalWeatherAPIResponse.name data ++ ", "
              ++ (if String.eqb (ExternalWeatherAPIResponse.region data) ""
                  then ExternalWeatherAPIResponse.country data
                  else ExternalWeatherAPIResponse.region data) in
            match Date_toISOString env (ExternalWeatherAPIResponse.last_updated data) with
            | None => throw (mkError "Invalid time value" None)
            | Some timestamp =>
                if js_lt temperature (Finite (-90)) || js_lt (Finite 60) temperature then
                  throw (mkError "temperatureOutOfRange" (Some "VALIDATION_ERROR"))
                else
                  let weatherResponse :=
                    WeatherResponse.mk
                      (js_div (Math_round (js_mul temperature (Finite 10))) (Finite 10))
                      unitSymbol formattedLocation timestamp "online" in
                  let cacheKey := cacheKey location unit in
                  let cacheData := cacheData weatherResponse (now_cacheTime env) in
                  let* _ := weatherCache_set cacheKey cacheData in
                  ret weatherResponse
            end
        end
  end
  end.

Definition fetchWeatherFromAPI (location unit : string) : M WeatherResponse.t :=
  let apiKey := weather_apiKey cfg in
  let apiUrl := weather_apiUrl cfg in
  if String.eqb apiKey "" then
    throw (mkError "weatherApiKeyNotConfigured" (Some "WEATHER_API_ERROR"))
  else
    try_catch (fetchWeatherFromAPI_try apiUrl apiKey location unit)
      (λ error,
         if has_code error then throw error
         else throw (mkError "weatherApiRequestFailed" (Some "WEATHER_API_ERROR"))).

(** The object literal built three times in [weatherGet] from the cached
    data and a status. *)
Definition from_cache (cachedData : CachedWeatherData.t) (status : string)
  : WeatherResponse.t :=
  WeatherResponse.mk
    (CachedWeatherData.temperature cachedData)
    (CachedWeatherData.unit cachedData)
    (CachedWeatherData.location cachedData)
    (CachedWeatherData.timestamp cachedData)
    status.

(** The final [try]/[catch] of [weatherGet], rule fn-api-fetch with rule
    fn-offline-fallback. *)
Definition weatherGet_fetch (location unit : string)
  (cachedData : option CachedWeatherData.t) : M WeatherResponse.t :=
  try_catch (fetchWeatherFromAPI location unit)
    (λ error,
       match cachedData with
       | Some cachedData => ret (from_cache cachedData "offline")
       | None => throw error
       end).

(** [weatherGet].  Leaving the [if (cachedData)] block without a [return]
    (a reading aged 15 to 60 minutes) continues with the final [try], like a
    lookup that found nothing. *)
Definition weatherGet (params : WeatherGetRequest.t) : M WeatherResponse.t :=
  let location := WeatherGetRequest.location params in
  let unit := WeatherGetRequest.unit params in
  let cacheKey := cacheKey location unit in
  let* cachedData := weatherCache_get cacheKey in
  let now := now_weatherGet env in
  match cachedData with
  | Some cached =>
      let cacheAge := now - CachedWeatherData.cacheTime cached in
      let oneHour := 60 * 60 * 1000 in
      if cacheAge <? 15 * 60 * 1000 then
        ret (from_cache cached "online")
      else if cacheAge >? oneHour then
        try_catch (fetchWeatherFromAPI location unit)
          (λ error, ret (from_cache cached "outdated"))
      else
        weatherGet_fetch location unit cachedData
  | None => weatherGet_fetch location unit cachedData
  end.

(** Names for what a call of [weatherGet] sees on its way: the value of
    [cachedData], the state once the lookup is done, and [cacheAge]. *)
Definition cachedData (params : WeatherGetRequest.t) (w : World)
  : option CachedWeatherData.t :=
  (SimpleCache.get (now_get env)
     (cacheKey (WeatherGetRequest.location params) (WeatherGetRequest.unit params))
     (weatherCache w)).1.

Definition after_lookup (params : WeatherGetRequest.t) (w : World) : World :=
  mkWorld
    (SimpleCache.get (now_get env)
       (cacheKey (WeatherGetRequest.location params) (WeatherGetRequest.unit params))
       (weatherCache w)).2
    (requests w).

Definition cacheAge (cached : CachedWeatherData.t) : Z :=
  now_weatherGet env - CachedWeatherData.cacheTime cached.

End WeatherRules.

(** ** api/v1/external/weather/controller *)

(** A value of [req.query]: Express parses a parameter into a string, an
    array (the parameter repeated) or a nested object (bracket syntax). *)
Inductive QueryValue : Type :=
| QString (s : string)
| QArray (items : list string)
| QObject (fields : list (string * string)).

(** [req.query], the two parameters read; [None] is [undefined]. *)
Record Query : Type := mkQuery {
  query_location : option QueryValue;
  query_unit : option QueryValue
}.

(** The module [@/utils/response] is not among the sources; its two helpers
    are kept uninterpreted, so an envelope is the call that built it:
    [successResponse(data)] or [errorResponse(message, code)]. *)
Inductive Envelope : Type :=
| successResponse (data : WeatherResponse.t)
| errorResponse (message code : string).

(** How the handler ends: [res.status(s).json(body)] (the status is 200 when
    [res.status] is not called), or [next(error)]. *)
Inductive Reply : Type :=
| Json (http_status : Z) (body : Envelope)
| Next (error : JsError).

Section Controller.
Variable cfg : Config.
Variable env : Env.

(** [!location || typeof location !== 'string'] *)
Definition location_missing (location : option QueryValue) : bool :=
  match location with
  | None => true
  | Some (QString s) => String.eqb s ""
  | Some _ => true
  end.

(** [unit !== 'celsius' && unit !== 'fahrenheit'] *)
Definition unit_invalid (unit : QueryValue) : bool :=
  match unit with
  | QString s => negb (String.eqb s "celsius") && negb (String.eqb s "fahrenheit")
  | _ => true
  end.

(** [location as string], [unit as string]: reached with strings only. *)
Definition as_string (v : QueryValue) : string :=
  match v with
  | QString s => s
  | _ => ""
  end.

Definition getHandler (query : Query) (w : World) : Reply * World :=
  let location := query_location query in
  let unit := default (QString "celsius") (query_unit query) in
  if location_missing location then
    (Json 400 (errorResponse "locationRequired" "VALIDATION_ERROR"), w)
  else if unit_invalid unit then
    (Json 400 (errorResponse "invalidUnit" "VALIDATION_ERROR"), w)
  else
    match weatherGet cfg env
            (WeatherGetRequest.mk (as_string (default (QString "") location))
                                  (as_string unit)) w with
    | (inr weatherData, w') => (Json 200 (successResponse weatherData), w')
    | (inl error, w') =>
        if code_is error "WEATHER_API_ERROR" then
          (Json 503 (errorResponse (message error) "EXTERNAL_API_ERROR"), w')
        else if code_is error "LOCATION_NOT_FOUND" then
          (Json 404 (errorResponse (message error) "LOCATION_NOT_FOUND"), w')
        else
          (Next error, w')
    end.

End Controller.

(** ** Names used in the statements *)

(** The temperature the fetch extracts from a payload. *)
Definition extracted (unit : string) (data : ExternalWeatherAPIResponse.t)
  : JsNumber :=
  if String.eqb unit "fahrenheit"
  then ExternalWeatherAPIResponse.temp_f data
  else ExternalWeatherAPIResponse.temp_c data.

(** The reading the fetch builds from a payload and a converted timestamp. *)
Definition reading_of (unit : string) (data : ExternalWeatherAPIResponse.t)
    (ts : string) : WeatherResponse.t :=
  WeatherResponse.mk
    (js_div (Math_round (js_mul (extracted unit data) (Finite 10))) (Finite 10))
    (if String.eqb unit "fahrenheit" then "°F" else "°C")
    (ExternalWeatherAPIResponse.name data ++ ", "
     ++ (if String.eqb (ExternalWeatherAPIResponse.region data) ""
         then ExternalWeatherAPIResponse.country data
         else ExternalWeatherAPIResponse.region data))
    ts "online".

Definition out_of_range (t : JsNumber) : bool :=
  js_lt t (Finite (-90)) || js_lt (Finite 60) t.

Definition temperatureOutOfRange : JsError :=
  mkError "temperatureOutOfRange" (Some "VALIDATION_ERROR").

(** ** Several calls in a row *)

(** What happens to the process between two observations: a request runs
    [weatherGet] to its end, or the timer runs the sweep. *)
Inductive Event : Type :=
| EvWeatherGet (env : Env) (params : WeatherGetRequest.t)
| EvSweep (now : Z).

Definition exec (cfg : Config) (w : World) (ev : Event) : World :=
  match ev with
  | EvWeatherGet env params => (weatherGet cfg env params w).2
  | EvSweep now => mkWorld (SimpleCache.sweep now (weatherCache w)) (requests w)
  end.

(** The state of the process after the events [evs], from start-up. *)
Definition history (cfg : Config) (evs : list Event) : World :=
  foldl (exec cfg) (initial_world cfg) evs.

(** The clock advance between the two reads of a cache write
    ([cacheTime: Date.now()], then [Date.now()] in [set]). *)
Definition write_drift (env : Env) : Z := now_set env - now_cacheTime env.

(** The clock advance between the two reads of a lookup
    ([Date.now()] in [get], then [const now = Date.now()]). *)
Definition read_drift (env : Env) : Z := now_weatherGet env - now_get env.

(** The event writes the cache, if at all, with a drift of at most [d]. *)
Definition writes_within (d : Z) (ev : Event) : Prop :=
  match ev with
  | EvWeatherGet env _ => write_drift env <= d
  | EvSweep _ => True
  end.

(** Every entry expires at most [ttl + d] after its [cacheTime]. *)
Definition expiry_within (d : Z) (c : SimpleCache.t CachedWeatherData.t) : Prop :=
  ∀ key entry,
    SimpleCache.cache c !! key = Some entry →
    SimpleCache.expiry entry
    <= CachedWeatherData.cacheTime (SimpleCache.value entry) + SimpleCache.ttl c + d.

(** [status_of r]: the [status] of a returned reading, if one is returned. *)
Definition status_of (r : JsError + WeatherResponse.t) : option string :=
  match r with
  | inr reading => Some (WeatherResponse.status reading)
  | inl _ => None
  end.

(** ** Sample surroundings *)

Module Sample.

(** Time to live of one hour, and of two hours. *)
Definition cfg : Config := mkConfig "secret" "https://api.example" 3600 600.
Definition cfg_2h : Config := mkConfig "secret" "https://api.example" 7200 600.

(** A payload for Paris; the temperatures are given as the decimals of the
    JSON text and held as the doubles they are read as. *)
Definition paris (temp_c temp_f : Q) : ExternalWeatherAPIResponse.t :=
  ExternalWeatherAPIResponse.mk (to_double temp_c) (to_double temp_f)
    "2024-05-01 10:00" "Paris" "" "France".

(** A server that answers 200 with [data], and one that cannot be reached. *)
Definition answers (data : ExternalWeatherAPIResponse.t) : string → FetchOutcome :=
  λ _, FetchResponse 200 (inr data).

Definition down : string → FetchOutcome :=
  λ _, FetchRejected (mkError "fetch failed" None).

Definition toISOString (s : string) : option string :=
  if String.eqb s "2024-05-01 10:00" then Some "2024-05-01T10:00:00.000Z" else None.

(** Surroundings in which every clock read gives [now]. *)
Definition at_time (now : Z) (up : string → FetchOutcome) : Env :=
  mkEnv now now now now up Some toISOString.

Definition celsius : WeatherGetRequest.t := WeatherGetRequest.mk "Paris" "celsius".
Definition fahrenheit : WeatherGetRequest.t := WeatherGetRequest.mk "Paris" "fahrenheit".

Definition url : string := "https://api.example/current.json?key=secret&q=Paris&aqi=no".

(** The reading cached by a first request at time 0. *)
Definition cached : CachedWeatherData.t :=
  CachedWeatherData.mk (to_double 21.3) "°C" "Paris, France"
    "2024-05-01T10:00:00.000Z" 0.

Definition minutes (n : Z) : Z := n * 60 * 1000.

(** The process after one request for Paris in Celsius served at time 0. *)
Definition warm : World :=
  history cfg [EvWeatherGet (at_time 0 (answers (paris 21.34 70.4))) celsius].

Definition warm_2h : World :=
  history cfg_2h [EvWeatherGet (at_time 0 (answers (paris 21.34 70.4))) celsius].

(** Surroundings of a first request whose clock ticks between the read for
    [cacheTime] and the read in [set], and of a second request, an hour
    later, whose clock ticks between the read in [get] and the read for
    [now]; the upstream is down for the second. *)
Definition ticking_write : Env :=
  mkEnv 0 0 0 1 (answers (paris 21.34 70.4)) Some toISOString.

Definition ticking_read : Env :=
  mkEnv 3600001 3600002 3600002 3600002 down Some toISOString.

End Sample.

(** ** Names used in the further statements *)

(** Every entry of the cache [c] was put there by a [set] among [ops], and
    expires one time to live after the clock value that [set] read. *)
Definition set_by {T : Type} (ops : list (SimpleCache.Op T)) (c : SimpleCache.t T)
  : Prop :=
  ∀ key e,
    SimpleCache.cache c !! key = Some e →
    ∃ now, In (SimpleCache.OpSet now key (SimpleCache.value e)) ops ∧
           SimpleCache.expiry e = now + SimpleCache.ttl c.

(** The errors [fetchWeatherFromAPI] builds itself. *)
Definition weatherApiKeyNotConfigured : JsError :=
  mkError "weatherApiKeyNotConfigured" (Some "WEATHER_API_ERROR").

Definition weatherApiRequestFailed : JsError :=
  mkError "weatherApiRequestFailed" (Some "WEATHER_API_ERROR").

Definition locationNotFound : JsError :=
  mkError "locationNotFound" (Some "LOCATION_NOT_FOUND").

(** What leaves the [catch] block of [fetchWeatherFromAPI] for an error
    thrown inside its [try] block. *)
Definition rethrown (e : JsError) : JsError :=
  if has_code e then e else weatherApiRequestFailed.

(** The state after one request to [url]. *)
Definition requested (url : string) (w : World) : World :=
  mkWorld (weatherCache w) (url :: requests w).

(** [query] passes both checks of the handler, with [location] and [unit]
    as the strings handed to [weatherGet]. *)
Definition valid_query (query : Query) (location unit : string) : Prop :=
  query_location query = Some (QString location) ∧ location ≠ "" ∧
  ((query_unit query = None ∧ unit = "celsius") ∨
   (query_unit query = Some (QString unit) ∧
    (unit = "celsius" ∨ unit = "fahrenheit"))).

(** The reply the handler makes of an outcome of [weatherGet]. *)
Definition reply_of (outcome : JsError + WeatherResponse.t) : Reply :=
  match outcome with
  | inr weatherData => Json 200 (successResponse weatherData)
  | inl error =>
      if code_is error "WEATHER_API_ERROR" then
        Json 503 (errorResponse (message error) "EXTERNAL_API_ERROR")
      else if code_is error "LOCATION_NOT_FOUND" then
        Json 404 (errorResponse (message error) "LOCATION_NOT_FOUND")
      else Next error
  end.

(** A number that is [NaN] or lies between -90 and 60. *)
Definition within_bounds (t : JsNumber) : Prop :=
  match t with
  | NaN => True
  | Infinity _ => False
  | Finite q => (-90 <= q <= 60)%Q
  end.

(** Every cached reading has a temperature that is [NaN] or within the
    validated bounds, and one of the two unit symbols. *)
Definition plausible (c : SimpleCache.t CachedWeatherData.t) : Prop :=
  ∀ key entry,
    SimpleCache.cache c !! key = Some entry →
    within_bounds (CachedWeatherData.temperature (SimpleCache.value entry)) ∧
    (CachedWeatherData.unit (SimpleCache.value entry) = "°C" ∨
     CachedWeatherData.unit (SimpleCache.value entry) = "°F").

(** * Properties *)

(** Closed instances of the theorems below have their hypotheses settled
    by evaluation. *)
Ltac evaluate :=
  vm_compute; repeat split;
  first [reflexivity | discriminate | (intros; discriminate)].

Ltac feed H :=
  cbv zeta in H;
  match type of H with
  | ?A → _ =>
      let h := fresh "h" in
      assert (h : A) by evaluate; specialize (H h); clear h
  end.

(** ** The cache *)

Module SimpleCacheFacts.
Import SimpleCache.

Section Facts.
Context {T : Type}.
Implicit Types (c : t T) (key : string) (o : Op T) (e : CacheEntry T).

Lemma get_absent now key c :
  cache c !! key = None → get now key c = (None, c).
Proof. intros H. unfold get. by rewrite H. Qed.

Lemma get_live now key c e :
  cache c !! key = Some e → now <= expiry e →
  get now key c = (Some (value e), c).
Proof.
  intros H Hle. unfold get. rewrite H.
  destruct (Z.gtb_spec now (expiry e)); [lia | done].
Qed.

Lemma get_expired now key c e :
  cache c !! key = Some e → now > expiry e →
  get now key c = (None, delete key c).
Proof.
  intros H Hgt. unfold get. rewrite H.
  destruct (Z.gtb_spec now (expiry e)); [done | lia].
Qed.

(** A successful [get] changes nothing and returns the value of a live
    entry. *)
Lemma get_Some_inv now key c v c' :
  get now key c = (Some v, c') →
  c' = c ∧ ∃ e, cache c !! key = Some e ∧ value e = v ∧ now <= expiry e.
Proof.
  unfold get. destruct (cache c !! key) as [e|] eqn:H; [|done].
  destruct (Z.gtb_spec now (expiry e)); [done|].
  intros [= <- <-]. split; [done|]. exists e. split; [done|]. split; [done | lia].
Qed.

Lemma get_fst_Some_inv now key c v :
  (get now key c).1 = Some v →
  get now key c = (Some v, c) ∧
  ∃ e, cache c !! key = Some e ∧ value e = v ∧ now <= expiry e.
Proof.
  destruct (get now key c) as [r c'] eqn:Hg. simpl. intros ->.
  destruct (get_Some_inv _ _ _ _ _ Hg) as [-> He]. done.
Qed.

Lemma ttl_get now key c : ttl (get now key c).2 = ttl c.
Proof.
  unfold get. destruct (cache c !! key) as [e|]; [|done].
  by destruct (now >? expiry e).
Qed.

(** [get] can only remove entries. *)
Lemma get_lookup_Some now key c k e :
  cache (get now key c).2 !! k = Some e → cache c !! k = Some e.
Proof.
  unfold get. destruct (cache c !! key) as [e'|]; [|done].
  destruct (now >? expiry e'); [|done]. simpl.
  intros H. by apply lookup_delete_Some in H as [_ ?].
Qed.

Lemma set_lookup_Some now key v c k e :
  cache (set now key v c) !! k = Some e →
  (k = key ∧ e = mkEntry v (now + ttl c)) ∨ (k ≠ key ∧ cache c !! k = Some e).
Proof.
  unfold set. simpl. intros H.
  apply lookup_insert_Some in H as [[-> <-]|[? ?]]; [by left | by right].
Qed.

Lemma sweep_lookup_Some now c k e :
  cache (sweep now c) !! k = Some e → cache c !! k = Some e.
Proof. unfold sweep. simpl. intros H. by apply map_lookup_filter_Some in H as [? _]. Qed.

Lemma ttl_step c o : ttl (step c o) = ttl c.
Proof. destruct o; simpl; [done | apply ttl_get | done..]. Qed.

Lemma ttl_run ops c : ttl (run ops c) = ttl c.
Proof.
  revert c. induction ops as [|o ops IH]; intros c; [done|].
  unfold run in *. simpl. rewrite IH. apply ttl_step.
Qed.

(** A key no call has set is not in the map. *)
Lemma step_never_set key c o :
  sets_key key o = false → cache c !! key = None →
  cache (step c o) !! key = None.
Proof.
  intros Ho Hc. destruct o as [now k v|now k|k| |now]; simpl in *.
  - apply bool_decide_eq_false in Ho. by rewrite lookup_insert_ne.
  - unfold get. destruct (cache c !! k) as [e|]; [|done].
    destruct (now >? expiry e); [|done]. simpl.
    apply lookup_delete_None. by right.
  - apply lookup_delete_None. by right.
  - apply lookup_empty.
  - apply map_lookup_filter_None. by left.
Qed.

Lemma run_never_set key ops c :
  forallb (λ o, negb (sets_key key o)) ops = true →
  cache c !! key = None →
  cache (run ops c) !! key = None.
Proof.
  revert c. induction ops as [|o ops IH]; intros c Hops Hc; [done|].
  simpl in Hops. apply andb_true_iff in Hops as [Ho Hops].
  apply negb_true_iff in Ho.
  unfold run in *. simpl. apply IH; [done|]. by apply step_never_set.
Qed.

(** Calls that keep an entry leave it in the map as it is. *)
Lemma step_keeps key c o e :
  keeps key (expiry e) o = true → cache c !! key = Some e →
  cache (step c o) !! key = Some e.
Proof.
  intros Ho Hc. destruct o as [now k v|now k|k| |now]; simpl in *.
  - apply negb_true_iff, bool_decide_eq_false in Ho. by rewrite lookup_insert_ne.
  - unfold get. destruct (cache c !! k) as [e'|] eqn:Hk; [|done].
    destruct (Z.gtb_spec now (expiry e')); [|done]. simpl.
    apply orb_true_iff in Ho as [Ho|Ho].
    + apply negb_true_iff, bool_decide_eq_false in Ho. by rewrite lookup_delete_ne.
    + destruct (decide (k = key)) as [->|Hne]; [|by rewrite lookup_delete_ne].
      rewrite Hc in Hk. injection Hk as <-. lia.
  - apply negb_true_iff, bool_decide_eq_false in Ho. by rewrite lookup_delete_ne.
  - done.
  - apply map_lookup_filter_Some. split; [done|]. simpl. lia.
Qed.

Lemma run_keeps key ops c e :
  forallb (keeps key (expiry e)) ops = true → cache c !! key = Some e →
  cache (run ops c) !! key = Some e.
Proof.
  revert c. induction ops as [|o ops IH]; intros c Hops Hc; [done|].
  simpl in Hops. apply andb_true_iff in Hops as [Ho Hops].
  unfold run in *. simpl. apply IH; [done|]. by apply step_keeps.
Qed.

End Facts.

(** C6.  A [get] after a [set] of the same key, with any calls in between
    that keep the entry (calls on other keys, and [get]s and sweeps that run
    before the expiry), returns the stored value and changes nothing as long
    as [now <= expiry], where [expiry] is the time of insertion plus the
    [ttl]; once [now > expiry] it returns absent and the key is gone from
    the map.  A [get] of a key that no call has set since the construction
    returns absent. *)
Theorem get_after_set (T : Type) (c : t T) (key : string) (v : T)
    (inserted now : Z) :
  let expiry := inserted + ttl c in
  (∀ between : list (Op T),
     forallb (keeps key expiry) between = true →
     let c' := run between (set inserted key v c) in
     (now <= expiry → get now key c' = (Some v, c')) ∧
     (now > expiry →
        (get now key c').1 = None ∧ cache (get now key c').2 !! key = None)) ∧
  (∀ (ttl_seconds : Z) (ops : list (Op T)),
     forallb (λ o, negb (sets_key key o)) ops = true →
     get now key (run ops (new ttl_seconds)) = (None, run ops (new ttl_seconds))).
Proof.
  intros expiry. split.
  - intros between Hkeeps c'.
    assert (Hc' : cache c' !! key = Some (mkEntry v expiry)).
    { apply run_keeps; [done|]. unfold set. simpl. apply lookup_insert_eq. }
    split.
    + intros Hle. by rewrite (get_live _ _ _ _ Hc').
    + intros Hgt. rewrite (get_expired _ _ _ _ Hc'); [|done]. simpl.
      split; [done|]. apply lookup_delete_eq.
  - intros ttl_seconds ops Hops. apply get_absent.
    apply run_never_set; [done|]. apply lookup_empty.
Qed.

Lemma get_after_set_witness :
  let c := set 1000 "paris" 21%Z (new 60) in
  get 61000 "paris" c = (Some 21%Z, c) ∧
  (get 61001 "paris" c).1 = None ∧
  cache (get 61001 "paris" c).2 !! "paris" = None ∧
  get 0 "paris" (run [OpSet 5 "oslo" 3%Z; OpSweep 9] (new 60))
    = (None, run [OpSet 5 "oslo" 3%Z; OpSweep 9] (new 60)).
Proof.
  intros c.
  destruct (get_after_set Z (new 60) "paris" 21 1000 61000) as [Hin Hnever].
  destruct (get_after_set Z (new 60) "paris" 21 1000 61001) as [Hout _].
  split; [|split; [|split]].
  - apply (Hin [] eq_refl). vm_compute. discriminate.
  - apply (Hout [] eq_refl). reflexivity.
  - apply (Hout [] eq_refl). reflexivity.
  - pose proof (get_after_set Z (new 60) "paris" 21 1000 0) as [_ H0].
    apply (H0 60 [OpSet 5 "oslo" 3; OpSweep 9]). reflexivity.
Defined.

End SimpleCacheFacts.

(** ** The upstream fetch *)

Section FetchFacts.
Variable cfg : Config.
Variable env : Env.
Implicit Types (w : World) (location unit : string).

Lemma world_eta w : mkWorld (weatherCache w) (requests w) = w.
Proof. by destruct w. Qed.

Lemma out_of_range_iff (q : Q) :
  out_of_range (Finite q) = true ↔ (q < -90 ∨ 60 < q)%Q.
Proof.
  unfold out_of_range, js_lt, Qlt_bool.
  rewrite orb_true_iff, !negb_true_iff, <- !not_true_iff_false, !Qle_bool_iff.
  split; intros [H|H]; [left|right|left|right];
    first [by apply Qnot_le_lt | by apply Qlt_not_le].
Qed.

(** The fetch on a well-formed answer: the key is configured, the location
    encodes, the server answers with a 2xx status and a payload whose date
    converts. *)
Lemma fetch_payload location unit w url st data ts :
  weather_apiKey cfg ≠ "" →
  request_url env (weather_apiUrl cfg) (weather_apiKey cfg) location = Some url →
  upstream env url = FetchResponse st (inr data) →
  ok st = true →
  Date_toISOString env (ExternalWeatherAPIResponse.last_updated data) = Some ts →
  fetchWeatherFromAPI cfg env location unit w =
    if out_of_range (extracted unit data)
    then (inl temperatureOutOfRange, mkWorld (weatherCache w) (url :: requests w))
    else (inr (reading_of unit data ts),
          mkWorld (SimpleCache.set (now_set env) (cacheKey location unit)
                     (cacheData (reading_of unit data ts) (now_cacheTime env))
                     (weatherCache w))
                  (url :: requests w)).
Proof.
  intros Hkey Hurl Hup Hok Hts. unfold fetchWeatherFromAPI.
  apply String.eqb_neq in Hkey. rewrite Hkey.
  unfold try_catch, fetchWeatherFromAPI_try, bind, fetch.
  rewrite Hurl, Hup, Hok. cbn [negb]. rewrite Hts. cbv zeta.
  fold (extracted unit data). fold (out_of_range (extracted unit data)).
  destruct (out_of_range (extracted unit data)); reflexivity.
Qed.

(** Whatever the fetch does, it writes the cache on success only, and then
    exactly the entry of the reading it returns. *)
Lemma fetch_cache location unit w :
  weatherCache (fetchWeatherFromAPI cfg env location unit w).2 =
    match (fetchWeatherFromAPI cfg env location unit w).1 with
    | inr reading =>
        SimpleCache.set (now_set env) (cacheKey location unit)
          (cacheData reading (now_cacheTime env)) (weatherCache w)
    | inl _ => weatherCache w
    end.
Proof.
  unfold fetchWeatherFromAPI.
  destruct (String.eqb _ ""); [done|].
  unfold try_catch, fetchWeatherFromAPI_try, bind, fetch, throw, ret,
    weatherCache_set.
  destruct (request_url env _ _ _) as [url|]; [|done].
  destruct (upstream env _) as [e|st [e|data]]; cbn [negb].
  - by destruct (has_code e).
  - destruct (ok st); cbn [negb]; [by destruct (has_code e)|].
    by destruct (st =? 400).
  - destruct (ok st); cbn [negb]; [|by destruct (st =? 400)].
    destruct (Date_toISOString env _) as [ts|]; [|done]. cbv zeta.
    fold (extracted unit data). fold (out_of_range (extracted unit data)).
    by destruct (out_of_range _).
Qed.

(** A successful fetch comes from a 2xx answer with a payload, and returns
    the reading built from it. *)
Lemma fetch_success location unit w reading w' :
  fetchWeatherFromAPI cfg env location unit w = (inr reading, w') →
  ∃ url st data ts,
    request_url env (weather_apiUrl cfg) (weather_apiKey cfg) location = Some url ∧
    upstream env url = FetchResponse st (inr data) ∧
    ok st = true ∧
    Date_toISOString env (ExternalWeatherAPIResponse.last_updated data) = Some ts ∧
    out_of_range (extracted unit data) = false ∧
    reading = reading_of unit data ts.
Proof.
  unfold fetchWeatherFromAPI.
  destruct (String.eqb _ ""); [done|].
  unfold try_catch, fetchWeatherFromAPI_try, bind, fetch, throw, ret,
    weatherCache_set.
  destruct (request_url env _ _ _) as [url|]; [|done].
  destruct (upstream env _) as [e|st [e|data]] eqn:Hup; cbn [negb].
  - by destruct (has_code e).
  - destruct (ok st); cbn [negb]; [by destruct (has_code e)|].
    by destruct (st =? 400).
  - destruct (ok st) eqn:Hok; cbn [negb]; [|by destruct (st =? 400)].
    destruct (Date_toISOString env _) as [ts|] eqn:Hts; [|done]. cbv zeta.
    fold (extracted unit data). fold (out_of_range (extracted unit data)).
    destruct (out_of_range _) eqn:Hr; [done|].
    intros [= <- <-]. by exists url, st, data, ts.
Qed.

Lemma fetch_success_status location unit w reading :
  (fetchWeatherFromAPI cfg env location unit w).1 = inr reading →
  WeatherResponse.status reading = "online".
Proof.
  destruct (fetchWeatherFromAPI cfg env location unit w) as [r w'] eqn:H.
  simpl. intros ->.
  apply fetch_success in H as (url & st & data & ts & _ & _ & _ & _ & _ & ->). done.
Qed.

End FetchFacts.

(** ** What the fetch returns *)

Lemma if_eqb_decide {A : Type} (s t : string) (x y : A) :
  (if String.eqb s t then x else y) = (if decide (s = t) then x else y).
Proof.
  destruct (decide (s = t)) as [->|Hne].
  - by rewrite String.eqb_refl.
  - apply String.eqb_neq in Hne. by rewrite Hne.
Qed.

(** *** Rounding to a double *)

Lemma round_half_even_error (y : Q) :
  (Qabs (inject_Z (round_half_even y) - y) <= 1 # 2)%Q.
Proof.
  unfold round_half_even.
  pose proof (Qfloor_le y) as Hlo. pose proof (Qlt_floor y) as Hhi.
  rewrite inject_Z_plus in Hhi. change (inject_Z 1) with 1%Q in Hhi.
  apply Qabs_Qle_condition.
  destruct (Qcompare_spec (y - inject_Z (Qfloor y)) (1 # 2)) as [H|H|H].
  - destruct (Z.even (Qfloor y)).
    + split; lra.
    + rewrite inject_Z_plus. change (inject_Z 1) with 1%Q. split; lra.
  - split; lra.
  - rewrite inject_Z_plus. change (inject_Z 1) with 1%Q. split; lra.
Qed.

Lemma pow2_pos (k : Z) : (0 < 2 ^ k)%Q.
Proof. by apply Qpower_0_lt. Qed.

Lemma pow2_le (k l : Z) : k <= l → (2 ^ k <= 2 ^ l)%Q.
Proof. intros H. by apply Qpower_le_compat_l. Qed.

Lemma ilog2_le (x : Q) : (0 < x)%Q → (2 ^ ilog2 x <= x)%Q.
Proof.
  destruct x as [n d]. intros Hx. unfold ilog2. cbn [Qnum Qden].
  set (a := Z.log2 n). set (b := Z.log2 (Zpos d)).
  destruct (Qle_bool (2 ^ (a - b)) (n # d)) eqn:Ht; [by apply Qle_bool_iff|].
  assert (Hn : 0 < n) by (unfold Qlt in Hx; simpl in Hx; lia).
  assert (Ha : 0 <= a) by apply Z.log2_nonneg.
  assert (Hb : 0 <= b) by apply Z.log2_nonneg.
  destruct (Z.log2_spec n Hn) as [Hn1 _]. fold a in Hn1.
  destruct (Z.log2_spec (Zpos d) ltac:(lia)) as [_ Hd2]. fold b in Hd2.
  replace (a - b - 1) with (a - (b + 1)) by lia.
  rewrite Qpower_minus by discriminate.
  change 2%Q with (inject_Z 2).
  rewrite <- !Zpower_Qpower by lia.
  rewrite (Qmake_Qdiv n d).
  assert (Hp : 0 < 2 ^ (b + 1)) by (apply Z.pow_pos_nonneg; lia).
  apply Qle_shift_div_l; [rewrite <- (Zlt_Qlt 0); lia|].
  unfold Qdiv. rewrite <- Qmult_assoc, (Qmult_comm (/ _)), Qmult_assoc.
  apply Qle_shift_div_r; [by rewrite <- (Zlt_Qlt 0)|].
  rewrite <- !inject_Z_mult, <- Zle_Qle.
  replace (Z.succ b) with (b + 1) in Hd2 by lia.
  nia.
Qed.

Lemma ilog2_lt (x : Q) (k : Z) : (0 < x)%Q → (x < 2 ^ k)%Q → ilog2 x < k.
Proof.
  intros Hx Hk. destruct (Z.lt_ge_cases (ilog2 x) k) as [|Hge]; [done|].
  exfalso. apply (Qlt_not_le _ _ Hk).
  apply (Qle_trans _ (2 ^ ilog2 x)); [by apply pow2_le | by apply ilog2_le].
Qed.

(** On the samples, [to_double] reads a decimal as the processor does, and
    [js_mul] and [js_div] by ten give the doubles the processor computes:
    normal and subnormal numbers, ties, and overflow to an infinity. *)
Lemma to_double_as_hardware :
  map to_double Hardware.samples_decimal = map Hardware.of_float Hardware.samples ∧
  map (λ f, js_mul (Hardware.of_float f) (Finite 10)) Hardware.samples
    = map (λ f, Hardware.of_float (Hardware.times_ten f)) Hardware.samples ∧
  map (λ f, js_div (Hardware.of_float f) (Finite 10)) Hardware.samples
    = map (λ f, Hardware.of_float (Hardware.tenth f)) Hardware.samples.
Proof. vm_compute. done. Qed.

Lemma to_double_error (x : Q) (k : Z) :
  -1021 <= k <= 1023 →
  (Qabs x < 2 ^ k)%Q →
  ∃ r, to_double x = Finite r ∧ (Qabs (r - x) <= 2 ^ (k - 54))%Q.
Proof.
  intros Hk Hx. unfold to_double.
  destruct (Qeq_bool x 0) eqn:H0.
  { apply Qeq_bool_iff in H0. exists 0%Q. split; [done|].
    rewrite H0. apply Qlt_le_weak, pow2_pos. }
  apply Qeq_bool_neq in H0. cbv zeta.
  assert (Hpos : (0 < Qabs x)%Q).
  { destruct (Qlt_le_dec 0 (Qabs x)) as [|Hle]; [done|]. exfalso. apply H0.
    pose proof (Qabs_nonneg x) as Hn.
    assert (Hz : (Qabs x == 0)%Q) by (by apply Qle_antisym).
    revert Hz. apply Qabs_case; intros; lra. }
  set (e := quantum x).
  assert (He : e <= k - 53).
  { unfold e, quantum. pose proof (ilog2_lt _ _ Hpos Hx). lia. }
  set (m := round_half_even (x / 2 ^ e)).
  pose proof (round_half_even_error (x / 2 ^ e)) as Hm. fold m in Hm.
  pose proof (pow2_pos e) as Hpe.
  assert (Herr : (Qabs (inject_Z m * 2 ^ e - x) <= 2 ^ (k - 54))%Q).
  { apply (Qle_trans _ ((1 # 2) * 2 ^ e)).
    - assert (Heq : (inject_Z m * 2 ^ e - x
                       == (inject_Z m - x / 2 ^ e) * 2 ^ e)%Q) by (field; lra).
      rewrite Heq, Qabs_Qmult, (Qabs_pos (2 ^ e)) by lra.
      apply Qmult_le_compat_r; lra.
    - apply (Qle_trans _ ((1 # 2) * 2 ^ (k - 53))).
      + apply Qmult_le_l; [reflexivity | by apply pow2_le].
      + replace (k - 53) with (k - 54 + 1) by lia.
        rewrite Qpower_plus by discriminate.
        change (2 ^ 1)%Q with 2%Q. pose proof (pow2_pos (k - 54)). lra. }
  destruct (Qle_bool (2 ^ 1024) _) eqn:Hov.
  - exfalso. apply Qle_bool_iff in Hov.
    assert (Hr : (Qabs (inject_Z m * 2 ^ e) < 2 ^ 1024)%Q).
    { assert (Heq : (inject_Z m * 2 ^ e == (inject_Z m * 2 ^ e - x) + x)%Q) by ring.
      rewrite Heq.
      eapply Qle_lt_trans; [apply Qabs_triangle|].
      apply (Qlt_le_trans _ (2 ^ (k - 54) + 2 ^ k)); [lra|].
      apply (Qle_trans _ (2 ^ k + 2 ^ k)).
      - pose proof (pow2_le (k - 54) k ltac:(lia)). lra.
      - apply (Qle_trans _ (2 ^ (k + 1))).
        + rewrite Qpower_plus by discriminate. change (2 ^ 1)%Q with 2%Q. lra.
        + apply pow2_le. lia. }
    lra.
  - eexists. split; [done|]. by rewrite Qred_correct.
Qed.

Lemma round_half_up_bounds (x : Q) :
  (x - (1 # 2) < inject_Z (round_half_up x) <= x + (1 # 2))%Q.
Proof.
  unfold round_half_up.
  pose proof (Qfloor_le (x + (1 # 2))) as Hle.
  pose proof (Qlt_floor (x + (1 # 2))) as Hlt.
  rewrite inject_Z_plus in Hlt. change (inject_Z 1) with 1%Q in Hlt.
  split; lra.
Qed.

(** [Math.round(t * 10) / 10] for [t] between -90 and 60. *)
Lemma one_decimal (q : Q) :
  (-90 <= q <= 60)%Q →
  ∃ (n : Z) (v : Q),
    js_div (Math_round (js_mul (Finite q) (Finite 10))) (Finite 10)
      = to_double (inject_Z n / 10) ∧
    to_double (inject_Z n / 10) = Finite v ∧
    (Qabs (inject_Z n - q * 10) <= (1 # 2) + (1 # 1000000000000))%Q ∧
    (Qabs (v - q) <= (1 # 20) + (1 # 1000000000000))%Q ∧
    (-90 <= v <= 60)%Q.
Proof.
  intros [Hlo Hhi].
  assert (H44 : (2 ^ (10 - 54) == 1 # 17592186044416)%Q) by reflexivity.
  assert (H47 : (2 ^ (7 - 54) == 1 # 140737488355328)%Q) by reflexivity.
  destruct (to_double_error (q * 10) 10 ltac:(lia)) as (r & Hr & Herr).
  { change (2 ^ 10)%Q with 1024%Q. apply Qabs_Qlt_condition. split; lra. }
  rewrite H44 in Herr. apply Qabs_Qle_condition in Herr.
  set (n := round_half_up r).
  pose proof (round_half_up_bounds r) as Hn. fold n in Hn.
  assert (Hnz : -900 <= n <= 600).
  { split.
    - apply Z.lt_pred_le. rewrite Zlt_Qlt.
      change (inject_Z (Z.pred (-900))) with (-901)%Q. lra.
    - apply Z.lt_succ_r. rewrite Zlt_Qlt.
      change (inject_Z (Z.succ 600)) with 601%Q. lra. }
  destruct Hnz as [Hn1 Hn2]. pose proof Hn1 as Hq1. pose proof Hn2 as Hq2.
  rewrite Zle_Qle in Hq1, Hq2.
  change (inject_Z (-900)) with (-900)%Q in Hq1.
  change (inject_Z 600) with 600%Q in Hq2.
  assert (Hdiv : (inject_Z n / 10 == inject_Z n * (1 # 10))%Q) by reflexivity.
  destruct (to_double_error (inject_Z n / 10) 7 ltac:(lia)) as (v & Hv & Hverr).
  { change (2 ^ 7)%Q with 128%Q. rewrite Hdiv. apply Qabs_Qlt_condition. split; lra. }
  rewrite H47, Hdiv in Hverr. apply Qabs_Qle_condition in Hverr.
  exists n, v. split; [|split; [done|]].
  { unfold js_mul. rewrite Hr. unfold Math_round. fold n. done. }
  split; [apply Qabs_Qle_condition; split; lra|].
  split; [apply Qabs_Qle_condition; split; lra|].
  split.
  - destruct (Z.eq_dec n (-900)) as [->|Hne].
    + vm_compute in Hv. injection Hv as <-. discriminate.
    + assert (Hn3 : -899 <= n) by lia. rewrite Zle_Qle in Hn3.
      change (inject_Z (-899)) with (-899)%Q in Hn3. lra.
  - destruct (Z.eq_dec n 600) as [->|Hne].
    + vm_compute in Hv. injection Hv as <-. discriminate.
    + assert (Hn3 : n <= 599) by lia. rewrite Zle_Qle in Hn3.
      change (inject_Z 599) with 599%Q in Hn3. lra.
Qed.

Lemma out_of_range_within (t : JsNumber) :
  out_of_range t = false →
  match t with
  | NaN => True
  | Infinity _ => False
  | Finite q => (-90 <= q <= 60)%Q
  end.
Proof.
  destruct t as [|s|q]; [done | by destruct s |].
  intros Hr. split; apply Qnot_lt_le; intros Hlt;
    (assert (out_of_range (Finite q) = true) as Ht
       by (apply out_of_range_iff; auto)); congruence.
Qed.





Lemma out_of_range_comp (x y : Q) :
  (x == y)%Q → out_of_range (Finite x) = out_of_range (Finite y).
Proof. intros H. unfold out_of_range, js_lt, Qlt_bool. by rewrite H. Qed.

(** C1.  For unit "fahrenheit" the bounds -90 and 60 are applied to the
    Fahrenheit value itself: every [temp_f] above 60 and up to 140 makes the
    fetch fail with the validation error, although its Celsius equivalent
    [(temp_f - 32) * 5 / 9] lies within [-90, 60]. *)
Theorem fetch_fahrenheit_rejected (cfg : Config) (env : Env) (location : string)
    (w : World) (url : string) (st : Z) (data : ExternalWeatherAPIResponse.t)
    (ts : string) (f : Q) :
  weather_apiKey cfg ≠ "" →
  request_url env (weather_apiUrl cfg) (weather_apiKey cfg) location = Some url →
  upstream env url = FetchResponse st (inr data) →
  ok st = true →
  Date_toISOString env (ExternalWeatherAPIResponse.last_updated data) = Some ts →
  ExternalWeatherAPIResponse.temp_f data = Finite f →
  (60 < f <= 140)%Q →
  (fetchWeatherFromAPI cfg env location "fahrenheit" w).1
    = inl (mkError "temperatureOutOfRange" (Some "VALIDATION_ERROR")) ∧
  (-90 <= (f - 32) * 5 / 9 <= 60)%Q.
Proof.
  intros Hkey Hurl Hup Hok Hts Hf [Hlo Hhi].
  rewrite (fetch_payload cfg env location "fahrenheit" w url st data ts) by done.
  assert (Hr : out_of_range (extracted "fahrenheit" data) = true).
  { change (extracted "fahrenheit" data)
      with (ExternalWeatherAPIResponse.temp_f data).
    rewrite Hf. apply out_of_range_iff. by right. }
  rewrite Hr. split; [done|].
  unfold Qdiv. change (/ 9)%Q with (1 # 9)%Q. split; lra.
Qed.

Lemma fetch_fahrenheit_rejected_witness :
  (fetchWeatherFromAPI Sample.cfg
     (Sample.at_time 0 (Sample.answers (Sample.paris 21.1 70)))
     "Paris" "fahrenheit" (initial_world Sample.cfg)).1
    = inl (mkError "temperatureOutOfRange" (Some "VALIDATION_ERROR")) ∧
  (-90 <= (70 - 32) * 5 / 9 <= 60)%Q.
Proof.
  apply (fetch_fahrenheit_rejected Sample.cfg
           (Sample.at_time 0 (Sample.answers (Sample.paris 21.1 70)))
           "Paris" (initial_world Sample.cfg) Sample.url 200 (Sample.paris 21.1 70)
           "2024-05-01T10:00:00.000Z" 70).
  - discriminate.
  - reflexivity.
  - reflexivity.
  - reflexivity.
  - reflexivity.
  - vm_compute. reflexivity.
  - split; vm_compute; [reflexivity | discriminate].
Defined.

(** ** The retrieval policy *)

Section PolicyFacts.
Variable cfg : Config.
Variable env : Env.
Implicit Types (w : World) (params : WeatherGetRequest.t).

(** [weatherGet] as one case analysis on the lookup, the age and the outcome
    of the fetch. *)
Lemma weatherGet_eq params w :
  weatherGet cfg env params w =
    let location := WeatherGetRequest.location params in
    let unit := WeatherGetRequest.unit params in
    let w1 := after_lookup env params w in
    match cachedData env params w with
    | Some cached =>
        if cacheAge env cached <? 15 * 60 * 1000 then
          (inr (from_cache cached "online"), w1)
        else
          match fetchWeatherFromAPI cfg env location unit w1 with
          | (inr fresh, w2) => (inr fresh, w2)
          | (inl _, w2) =>
              (inr (from_cache cached
                      (if cacheAge env cached >? 60 * 60 * 1000
                       then "outdated" else "offline")), w2)
          end
    | None => fetchWeatherFromAPI cfg env location unit w1
    end.
Proof.
  unfold weatherGet, cachedData, after_lookup, cacheAge, bind, weatherCache_get.
  destruct (SimpleCache.get _ _ _) as [[cached|] c]; simpl.
  - destruct (_ <? _); [done|].
    destruct (_ >? _); unfold weatherGet_fetch, try_catch, ret;
      by destruct (fetchWeatherFromAPI _ _ _ _ _) as [[e|r] w2].
  - unfold weatherGet_fetch, try_catch, throw.
    by destruct (fetchWeatherFromAPI _ _ _ _ _) as [[e|r] w2].
Qed.

(** A lookup that finds a reading leaves the state as it was. *)
Lemma after_lookup_found params w cached :
  cachedData env params w = Some cached → after_lookup env params w = w.
Proof.
  unfold cachedData, after_lookup. intros H.
  apply SimpleCacheFacts.get_fst_Some_inv in H as [-> _]. apply world_eta.
Qed.

(** The lookup writes nothing: it leaves the cache alone or deletes the
    expired entry of its key. *)
Lemma after_lookup_cache params w :
  let key := cacheKey (WeatherGetRequest.location params)
                      (WeatherGetRequest.unit params) in
  weatherCache (after_lookup env params w) = weatherCache w ∨
  (cachedData env params w = None ∧
   weatherCache (after_lookup env params w) = SimpleCache.delete key (weatherCache w)).
Proof.
  unfold cachedData, after_lookup, SimpleCache.get. simpl.
  destruct (SimpleCache.cache _ !! _) as [e|]; [|by left].
  destruct (_ >? _); [by right | by left].
Qed.

(** The cache after [weatherGet]: the cache after the lookup, with the
    entry of the fetched reading when a fetch was made and succeeded. *)
Lemma weatherGet_cache params w :
  let location := WeatherGetRequest.location params in
  let unit := WeatherGetRequest.unit params in
  let w1 := after_lookup env params w in
  weatherCache (weatherGet cfg env params w).2 =
    match cachedData env params w with
    | Some cached =>
        if cacheAge env cached <? 15 * 60 * 1000 then weatherCache w1
        else weatherCache (fetchWeatherFromAPI cfg env location unit w1).2
    | None => weatherCache (fetchWeatherFromAPI cfg env location unit w1).2
    end.
Proof.
  intros location unit w1. rewrite weatherGet_eq. cbv zeta. fold location unit w1.
  destruct (cachedData env params w) as [cached|]; [|done].
  destruct (_ <? _); [done|].
  by destruct (fetchWeatherFromAPI cfg env location unit w1) as [[e|r] w2].
Qed.

End PolicyFacts.

(** C3.  When the lookup finds a reading whose age [now - cacheTime] is less
    than 15 minutes, [weatherGet] returns its temperature, unit, location
    and timestamp with status "online"; the cache and the list of upstream
    requests are as before, and the result is the same for every
    configuration and every upstream server. *)
Theorem weatherGet_fresh (cfg : Config) (env : Env)
    (params : WeatherGetRequest.t) (w : World) (cached : CachedWeatherData.t) :
  cachedData env params w = Some cached →
  cacheAge env cached < 15 * 60 * 1000 →
  weatherGet cfg env params w =
    (inr (WeatherResponse.mk
            (CachedWeatherData.temperature cached)
            (CachedWeatherData.unit cached)
            (CachedWeatherData.location cached)
            (CachedWeatherData.timestamp cached)
            "online"), w) ∧
  ∀ cfg' env',
    now_get env' = now_get env → now_weatherGet env' = now_weatherGet env →
    weatherGet cfg' env' params w = weatherGet cfg env params w.
Proof.
  intros Hc Hage.
  assert (Hres : ∀ cfg' env',
    now_get env' = now_get env → now_weatherGet env' = now_weatherGet env →
    weatherGet cfg' env' params w = (inr (from_cache cached "online"), w)).
  { intros cfg' env' Hg Hn.
    assert (Hc' : cachedData env' params w = Some cached).
    { unfold cachedData in *. by rewrite Hg. }
    rewrite weatherGet_eq, Hc'. simpl.
    rewrite (after_lookup_found _ _ _ _ Hc').
    unfold cacheAge. rewrite Hn. fold (cacheAge env cached).
    destruct (Z.ltb_spec (cacheAge env cached) (15 * 60 * 1000)); [done | lia]. }
  split.
  - by apply Hres.
  - intros cfg' env' Hg Hn. rewrite (Hres cfg' env'), (Hres cfg env); done.
Qed.

Lemma weatherGet_fresh_witness :
  weatherGet Sample.cfg (Sample.at_time (Sample.minutes 10) Sample.down)
    Sample.celsius Sample.warm
  = (inr (WeatherResponse.mk (to_double 21.3) "°C" "Paris, France"
            "2024-05-01T10:00:00.000Z" "online"), Sample.warm).
Proof.
  pose proof (weatherGet_fresh Sample.cfg
                (Sample.at_time (Sample.minutes 10) Sample.down)
                Sample.celsius Sample.warm Sample.cached) as H.
  repeat feed H. destruct H as [H _].
  vm_compute in H. vm_compute. exact H.
Defined.

(** C4.  When the lookup finds a reading older than 60 minutes and the
    fetch fails, with whatever error, [weatherGet] returns the fields of the
    cached reading with status "outdated" and no error. *)
Theorem weatherGet_stale_failure (cfg : Config) (env : Env)
    (params : WeatherGetRequest.t) (w : World) (cached : CachedWeatherData.t)
    (error : JsError) (w' : World) :
  cachedData env params w = Some cached →
  cacheAge env cached > 60 * 60 * 1000 →
  fetchWeatherFromAPI cfg env (WeatherGetRequest.location params)
    (WeatherGetRequest.unit params) w = (inl error, w') →
  weatherGet cfg env params w =
    (inr (WeatherResponse.mk
            (CachedWeatherData.temperature cached)
            (CachedWeatherData.unit cached)
            (CachedWeatherData.location cached)
            (CachedWeatherData.timestamp cached)
            "outdated"), w').
Proof.
  intros Hc Hage Hfetch.
  rewrite weatherGet_eq, Hc. simpl.
  rewrite (after_lookup_found _ _ _ _ Hc), Hfetch.
  destruct (Z.ltb_spec (cacheAge env cached) (15 * 60 * 1000)); [lia|].
  destruct (Z.gtb_spec (cacheAge env cached) (60 * 60 * 1000)); [done | lia].
Qed.

Lemma weatherGet_stale_failure_witness :
  weatherGet Sample.cfg_2h (Sample.at_time (Sample.minutes 70) Sample.down)
    Sample.celsius Sample.warm_2h
  = (inr (WeatherResponse.mk (to_double 21.3) "°C" "Paris, France"
            "2024-05-01T10:00:00.000Z" "outdated"),
     mkWorld (weatherCache Sample.warm_2h) (Sample.url :: requests Sample.warm_2h)).
Proof.
  apply (weatherGet_stale_failure Sample.cfg_2h
           (Sample.at_time (Sample.minutes 70) Sample.down)
           Sample.celsius Sample.warm_2h Sample.cached
           (mkError "weatherApiRequestFailed" (Some "WEATHER_API_ERROR"))).
  - reflexivity.
  - reflexivity.
  - reflexivity.
Defined.




(** C8.  The lookup of [weatherGet] writes nothing: it leaves the map as it
    was or deletes the expired entry of the key.  On a fresh hit the map is
    as before the call and no request is made.  Otherwise, when the fetch
    fails the map is as the lookup left it, and when the fetch succeeds the
    reading is returned and the map is the one the lookup left with one
    entry put under the key of the request: the returned reading with the
    [cacheTime] read for it, expiring one time to live after the clock
    value read in [set]; a lookup in the map under that key finds this
    entry.  The time to live is never changed. *)
Theorem weatherGet_cache_frame (cfg : Config) (env : Env)
    (params : WeatherGetRequest.t) (w : World) :
  let location := WeatherGetRequest.location params in
  let unit := WeatherGetRequest.unit params in
  let key := cacheKey location unit in
  let w1 := after_lookup env params w in
  let fresh_hit :=
    match cachedData env params w with
    | Some cached => cacheAge env cached <? 15 * 60 * 1000
    | None => false
    end in
  let fetched := (fetchWeatherFromAPI cfg env location unit w1).1 in
  let before := SimpleCache.cache (weatherCache w) in
  let looked := SimpleCache.cache (weatherCache w1) in
  let after := SimpleCache.cache (weatherCache (weatherGet cfg env params w).2) in
  (looked = before ∨
   (cachedData env params w = None ∧ looked = base.delete key before)) ∧
  SimpleCache.ttl (weatherCache (weatherGet cfg env params w).2)
    = SimpleCache.ttl (weatherCache w) ∧
  (if fresh_hit then
     after = before ∧ requests (weatherGet cfg env params w).2 = requests w
   else
     match fetched with
     | inr reading =>
         let entry :=
           SimpleCache.mkEntry
             (CachedWeatherData.mk
                (WeatherResponse.temperature reading)
                (WeatherResponse.unit reading)
                (WeatherResponse.location reading)
                (WeatherResponse.timestamp reading)
                (now_cacheTime env))
             (now_set env + SimpleCache.ttl (weatherCache w)) in
         (weatherGet cfg env params w).1 = inr reading ∧
         after = <[key := entry]> looked ∧
         after !! key = Some entry
     | inl _ => after = looked
     end).
Proof.
  intros location unit key w1 fresh_hit fetched before looked after.
  subst fresh_hit fetched before looked after w1 key location unit.
  split.
  { destruct (after_lookup_cache env params w) as [H | [Hn H]]; rewrite H;
      [by left | right; by split]. }
  assert (Httl : SimpleCache.ttl (weatherCache (after_lookup env params w))
                 = SimpleCache.ttl (weatherCache w)).
  { apply SimpleCacheFacts.ttl_get. }
  pose proof (fetch_cache cfg env (WeatherGetRequest.location params)
                (WeatherGetRequest.unit params) (after_lookup env params w)) as Hf.
  rewrite weatherGet_cache, weatherGet_eq. cbv zeta.
  destruct (cachedData env params w) as [cached|] eqn:Hc.
  - rewrite (after_lookup_found _ _ _ _ Hc) in *.
    destruct (_ <? _); [done|].
    rewrite Hf.
    destruct (fetchWeatherFromAPI cfg env _ _ w) as [[e|r] w2]; simpl in *;
      [done|].
    split; [done|]. split; [done|]. split; [done | apply lookup_insert_eq].
  - rewrite Hf.
    destruct (fetchWeatherFromAPI cfg env _ _ (after_lookup env params w))
      as [[e|r] w2]; simpl in *; [done|].
    rewrite <- Httl.
    split; [done|]. split; [done|]. split; [done | apply lookup_insert_eq].
Qed.

Lemma weatherGet_cache_frame_witness :
  SimpleCache.cache
    (weatherCache
       (weatherGet Sample.cfg
          (Sample.at_time 0 (Sample.answers (Sample.paris 21.34 70.4)))
          Sample.celsius (initial_world Sample.cfg)).2)
    !! "weather_Paris_celsius"
  = Some (SimpleCache.mkEntry Sample.cached 3600000).
Proof.
  pose proof (weatherGet_cache_frame Sample.cfg
                (Sample.at_time 0 (Sample.answers (Sample.paris 21.34 70.4)))
                Sample.celsius (initial_world Sample.cfg)) as H.
  cbv zeta in H. destruct H as (_ & _ & H).
  vm_compute in H. destruct H as (_ & _ & H).
  vm_compute. exact H.
Defined.

(** C2, as the code has it.  When the upstream answers a celsius request
    with a temperature of 65, the fetch fails with the validation error, and
    [weatherGet] fails with it only if the lookup found no reading.  A
    reading found replaces the failure: with status "offline" when it is
    aged 15 to 60 minutes, with status "outdated" when it is older (and a
    reading younger than 15 minutes is returned without any fetch). *)
Theorem weatherGet_out_of_range (cfg : Config) (env : Env)
    (params : WeatherGetRequest.t) (w : World) (url : string)
    (st : Z) (data : ExternalWeatherAPIResponse.t) (ts : string) (c : Q) :
  let location := WeatherGetRequest.location params in
  WeatherGetRequest.unit params = "celsius" →
  weather_apiKey cfg ≠ "" →
  request_url env (weather_apiUrl cfg) (weather_apiKey cfg) location = Some url →
  upstream env url = FetchResponse st (inr data) →
  ok st = true →
  Date_toISOString env (ExternalWeatherAPIResponse.last_updated data) = Some ts →
  ExternalWeatherAPIResponse.temp_c data = Finite c →
  (c == 65)%Q →
  let w' := mkWorld (weatherCache (after_lookup env params w)) (url :: requests w) in
  match cachedData env params w with
  | None =>
      weatherGet cfg env params w
        = (inl (mkError "temperatureOutOfRange" (Some "VALIDATION_ERROR")), w')
  | Some cached =>
      weatherGet cfg env params w =
        if cacheAge env cached <? 15 * 60 * 1000 then
          (inr (WeatherResponse.mk
                  (CachedWeatherData.temperature cached)
                  (CachedWeatherData.unit cached)
                  (CachedWeatherData.location cached)
                  (CachedWeatherData.timestamp cached)
                  "online"), w)
        else
          (inr (WeatherResponse.mk
                  (CachedWeatherData.temperature cached)
                  (CachedWeatherData.unit cached)
                  (CachedWeatherData.location cached)
                  (CachedWeatherData.timestamp cached)
                  (if cacheAge env cached >? 60 * 60 * 1000
                   then "outdated" else "offline")), w')
  end.
Proof.
  intros location Hunit Hkey Hurl Hup Hok Hts Hc Ht w'.
  assert (Hfetch : ∀ w0, fetchWeatherFromAPI cfg env location "celsius" w0
            = (inl temperatureOutOfRange, mkWorld (weatherCache w0) (url :: requests w0))).
  { intros w0.
    rewrite (fetch_payload cfg env location "celsius" w0 url st data ts) by done.
    change (extracted "celsius" data) with (ExternalWeatherAPIResponse.temp_c data).
    by rewrite Hc, (out_of_range_comp _ 65 Ht). }
  rewrite weatherGet_eq. cbv zeta. rewrite Hunit. fold location.
  rewrite Hfetch.
  destruct (cachedData env params w) as [cached|] eqn:Hcd; [|done].
  rewrite (after_lookup_found _ _ _ _ Hcd) in *.
  subst w'. rewrite (after_lookup_found _ _ _ _ Hcd).
  by destruct (_ <? _).
Qed.

Lemma weatherGet_out_of_range_witness :
  weatherGet Sample.cfg
    (Sample.at_time (Sample.minutes 20) (Sample.answers (Sample.paris 65 149)))
    Sample.celsius Sample.warm
  = (inr (WeatherResponse.mk (to_double 21.3) "°C" "Paris, France"
            "2024-05-01T10:00:00.000Z" "offline"),
     mkWorld (weatherCache Sample.warm) (Sample.url :: requests Sample.warm)).
Proof.
  apply (weatherGet_out_of_range Sample.cfg
           (Sample.at_time (Sample.minutes 20) (Sample.answers (Sample.paris 65 149)))
           Sample.celsius Sample.warm Sample.url 200 (Sample.paris 65 149)
           "2024-05-01T10:00:00.000Z" 65).
  - reflexivity.
  - discriminate.
  - reflexivity.
  - reflexivity.
  - reflexivity.
  - reflexivity.
  - vm_compute. reflexivity.
  - reflexivity.
Defined.

(** C2, as stated, fails: with a reading cached 20 minutes ago, a fetch is
    made, the upstream answers 65 for the celsius request, and [weatherGet]
    returns the cached reading with status "offline" instead of failing. *)
Lemma weatherGet_65_absorbed :
  let env := Sample.at_time (Sample.minutes 20)
               (Sample.answers (Sample.paris 65 149)) in
  let result := weatherGet Sample.cfg env Sample.celsius Sample.warm in
  cachedData env Sample.celsius Sample.warm = Some Sample.cached ∧
  cacheAge env Sample.cached = Sample.minutes 20 ∧
  upstream env Sample.url = FetchResponse 200 (inr (Sample.paris 65 149)) ∧
  requests result.2 = Sample.url :: requests Sample.warm ∧
  result.1 = inr (WeatherResponse.mk (to_double 21.3) "°C" "Paris, France"
                    "2024-05-01T10:00:00.000Z" "offline") ∧
  result.1 ≠ inl (mkError "temperatureOutOfRange" (Some "VALIDATION_ERROR")).
Proof. vm_compute. repeat split; discriminate. Qed.

(** ** The handler *)

(** C9, as the code has it.  The location is checked first: a location that
    is absent, not a string or empty gives 400 "locationRequired", whatever
    the unit.  With a non-empty string as location, a unit that is present
    and is neither "celsius" nor "fahrenheit" gives 400 "invalidUnit".
    Neither reply depends on the configuration or the surroundings, and the
    state is unchanged.  Otherwise [weatherGet] is called, with "celsius"
    for an omitted unit: a reading gives 200 with the success envelope, an
    error with code WEATHER_API_ERROR gives 503 with an EXTERNAL_API_ERROR
    envelope, one with code LOCATION_NOT_FOUND gives 404 with a
    LOCATION_NOT_FOUND envelope. *)
Theorem getHandler_replies (cfg : Config) (env : Env) (query : Query) (w : World) :
  (((∀ s, query_location query ≠ Some (QString s)) ∨
    query_location query = Some (QString "")) →
   getHandler cfg env query w
     = (Json 400 (errorResponse "locationRequired" "VALIDATION_ERROR"), w)) ∧
  (∀ location,
     query_location query = Some (QString location) → location ≠ "" →
     (∀ unit,
        query_unit query = Some unit →
        unit ≠ QString "celsius" → unit ≠ QString "fahrenheit" →
        getHandler cfg env query w
          = (Json 400 (errorResponse "invalidUnit" "VALIDATION_ERROR"), w)) ∧
     (∀ unit,
        (query_unit query = None ∧ unit = "celsius") ∨
        (query_unit query = Some (QString unit) ∧
         (unit = "celsius" ∨ unit = "fahrenheit")) →
        match weatherGet cfg env (WeatherGetRequest.mk location unit) w with
        | (inr reading, w') =>
            getHandler cfg env query w = (Json 200 (successResponse reading), w')
        | (inl error, w') =>
            (code error = Some "WEATHER_API_ERROR" →
             getHandler cfg env query w
               = (Json 503 (errorResponse (message error) "EXTERNAL_API_ERROR"), w')) ∧
            (code error = Some "LOCATION_NOT_FOUND" →
             getHandler cfg env query w
               = (Json 404 (errorResponse (message error) "LOCATION_NOT_FOUND"), w'))
        end)).
Proof.
  destruct query as [qlocation qunit]. unfold getHandler. simpl.
  split.
  - intros [Hns | ->]; [|done].
    destruct qlocation as [[s| |]|]; try done. by destruct (Hns s).
  - intros location -> Hne. simpl.
    apply String.eqb_neq in Hne. rewrite Hne. split.
    + intros unit -> Hc Hf. simpl.
      destruct unit as [s| |]; simpl; try done.
      destruct (String.eqb_spec s "celsius") as [->|_]; [done|].
      destruct (String.eqb_spec s "fahrenheit") as [->|_]; done.
    + intros unit [[-> ->] | [-> [-> | ->]]]; simpl;
        (destruct (weatherGet _ _ _ _) as [[error|reading] w']; [|done]);
        unfold code_is; split; intros ->; simpl; done.
Qed.

Lemma getHandler_replies_witness :
  getHandler Sample.cfg (Sample.at_time 0 (Sample.answers (Sample.paris 21.34 70.4)))
    (mkQuery (Some (QString "Paris")) (Some (QString "kelvin")))
    (initial_world Sample.cfg)
  = (Json 400 (errorResponse "invalidUnit" "VALIDATION_ERROR"),
     initial_world Sample.cfg) ∧
  (getHandler Sample.cfg (Sample.at_time 0 Sample.down)
     (mkQuery (Some (QString "Paris")) None) (initial_world Sample.cfg)).1
  = Json 503 (errorResponse "weatherApiRequestFailed" "EXTERNAL_API_ERROR").
Proof.
  split.
  - refine (proj1 (proj2 (getHandler_replies Sample.cfg
              (Sample.at_time 0 (Sample.answers (Sample.paris 21.34 70.4)))
              (mkQuery (Some (QString "Paris")) (Some (QString "kelvin")))
              (initial_world Sample.cfg)) "Paris" eq_refl _)
            (QString "kelvin") eq_refl _ _); discriminate.
  - pose proof (proj2 (proj2 (getHandler_replies Sample.cfg
              (Sample.at_time 0 Sample.down)
              (mkQuery (Some (QString "Paris")) None)
              (initial_world Sample.cfg)) "Paris" eq_refl ltac:(discriminate))
            "celsius" (or_introl (conj eq_refl eq_refl))) as H.
    apply (f_equal fst (proj1 H eq_refl)).
Defined.

(** C9, as stated, fails: without a location and with unit "kelvin" the unit
    is present and invalid, and the reply says "locationRequired", not
    "invalidUnit". *)
Lemma getHandler_location_first :
  let query := mkQuery None (Some (QString "kelvin")) in
  let reply := (getHandler Sample.cfg (Sample.at_time 0 Sample.down) query
                  (initial_world Sample.cfg)).1 in
  query_unit query = Some (QString "kelvin") ∧
  reply = Json 400 (errorResponse "locationRequired" "VALIDATION_ERROR") ∧
  reply ≠ Json 400 (errorResponse "invalidUnit" "VALIDATION_ERROR").
Proof. vm_compute. repeat split; discriminate. Qed.

(** ** Age of the readings a lookup can find *)

Section AgeFacts.
Variable cfg : Config.
Implicit Types (c : SimpleCache.t CachedWeatherData.t) (w : World) (d : Z).

Lemma expiry_within_get d now key c :
  expiry_within d c → expiry_within d (SimpleCache.get now key c).2.
Proof.
  intros Hc k e Hk. rewrite SimpleCacheFacts.ttl_get.
  apply (Hc k). by apply SimpleCacheFacts.get_lookup_Some in Hk.
Qed.

Lemma expiry_within_sweep d now c :
  expiry_within d c → expiry_within d (SimpleCache.sweep now c).
Proof.
  intros Hc k e Hk. apply SimpleCacheFacts.sweep_lookup_Some in Hk.
  by apply (Hc k).
Qed.

Lemma expiry_within_set d now key v c :
  now - CachedWeatherData.cacheTime v <= d →
  expiry_within d c → expiry_within d (SimpleCache.set now key v c).
Proof.
  intros Hd Hc k e Hk.
  apply SimpleCacheFacts.set_lookup_Some in Hk as [[-> ->]|[_ Hk]].
  - simpl. lia.
  - by apply (Hc k).
Qed.

Lemma expiry_within_fetch d env location unit w :
  write_drift env <= d →
  expiry_within d (weatherCache w) →
  expiry_within d (weatherCache (fetchWeatherFromAPI cfg env location unit w).2).
Proof.
  intros Hd Hw. rewrite fetch_cache.
  destruct (fetchWeatherFromAPI cfg env location unit w).1 as [e|r]; [done|].
  by apply expiry_within_set.
Qed.

Lemma expiry_within_weatherGet d env params w :
  write_drift env <= d →
  expiry_within d (weatherCache w) →
  expiry_within d (weatherCache (weatherGet cfg env params w).2).
Proof.
  intros Hd Hw.
  assert (H1 : expiry_within d (weatherCache (after_lookup env params w))).
  { by apply expiry_within_get. }
  rewrite weatherGet_cache.
  destruct (cachedData env params w) as [cached|];
    [destruct (_ <? _); [done|]|]; by apply expiry_within_fetch.
Qed.

Lemma ttl_fetch env location unit w :
  SimpleCache.ttl (weatherCache (fetchWeatherFromAPI cfg env location unit w).2)
  = SimpleCache.ttl (weatherCache w).
Proof.
  rewrite fetch_cache.
  by destruct (fetchWeatherFromAPI cfg env location unit w).1.
Qed.

Lemma ttl_weatherGet env params w :
  SimpleCache.ttl (weatherCache (weatherGet cfg env params w).2)
  = SimpleCache.ttl (weatherCache w).
Proof.
  assert (H1 : SimpleCache.ttl (weatherCache (after_lookup env params w))
               = SimpleCache.ttl (weatherCache w)).
  { apply SimpleCacheFacts.ttl_get. }
  rewrite weatherGet_cache.
  destruct (cachedData env params w) as [cached|];
    [destruct (_ <? _); [done|]|]; by rewrite ttl_fetch.
Qed.

(** Both facts hold along every history: induction on the events still to
    run, from any state that has them. *)
Lemma foldl_exec_invariant d evs w :
  Forall (writes_within d) evs →
  expiry_within d (weatherCache w) →
  let w' := foldl (exec cfg) w evs in
  expiry_within d (weatherCache w') ∧
  SimpleCache.ttl (weatherCache w') = SimpleCache.ttl (weatherCache w).
Proof.
  intros Hevs. revert w.
  induction Hevs as [|ev evs Hev _ IH]; intros w Hw; [done|].
  simpl. destruct (IH (exec cfg w ev)) as [Hex Httl].
  - destruct ev as [env params|now]; simpl in *.
    + by apply expiry_within_weatherGet.
    + by apply expiry_within_sweep.
  - split; [done|]. rewrite Httl.
    destruct ev as [env params|now]; simpl; [apply ttl_weatherGet | done].
Qed.

Lemma history_invariant d evs :
  Forall (writes_within d) evs →
  expiry_within d (weatherCache (history cfg evs)) ∧
  SimpleCache.ttl (weatherCache (history cfg evs)) = cache_ttl cfg * 1000.
Proof.
  intros Hevs.
  apply (foldl_exec_invariant d evs (initial_world cfg)); [done|].
  intros k e Hk. simpl in Hk. by rewrite lookup_empty in Hk.
Qed.

(** A reading found by the lookup is no older than the time to live plus the
    two drifts. *)
Lemma found_age d env params w cached :
  expiry_within d (weatherCache w) →
  cachedData env params w = Some cached →
  cacheAge env cached <= SimpleCache.ttl (weatherCache w) + d + read_drift env.
Proof.
  intros Hw Hc. unfold cachedData in Hc.
  apply SimpleCacheFacts.get_fst_Some_inv in Hc as [_ (e & Hk & <- & Hnow)].
  specialize (Hw _ _ Hk). unfold cacheAge, read_drift. lia.
Qed.

End AgeFacts.

(** C10, as the code has it.  After any history of requests and sweeps in
    which the clock advances by at most [d] between the two reads of a cache
    write, a reading found by the lookup has age [now - cacheTime] at most
    the time to live plus [d] plus the advance of the clock between the read
    in [get] and the read for [now].  When that sum is at most 60 minutes,
    [weatherGet] returns no reading with status "outdated". *)
Theorem found_age_bound (cfg : Config) (evs : list Event) (d : Z)
    (env : Env) (params : WeatherGetRequest.t) :
  Forall (writes_within d) evs →
  let w := history cfg evs in
  let ttl := cache_ttl cfg * 1000 in
  (∀ cached,
     cachedData env params w = Some cached →
     cacheAge env cached <= ttl + d + read_drift env) ∧
  (ttl + d + read_drift env <= 60 * 60 * 1000 →
   status_of (weatherGet cfg env params w).1 ≠ Some "outdated").
Proof.
  intros Hevs w ttl.
  destruct (history_invariant cfg d evs Hevs) as [Hex Httl]. fold w in Hex, Httl.
  assert (Hage : ∀ cached, cachedData env params w = Some cached →
                 cacheAge env cached <= ttl + d + read_drift env).
  { intros cached Hc. subst ttl. rewrite <- Httl.
    by apply (found_age d env params w cached). }
  split; [done|].
  intros Hsum. rewrite weatherGet_eq. cbv zeta.
  destruct (cachedData env params w) as [cached|] eqn:Hc.
  - specialize (Hage cached eq_refl).
    destruct (_ <? _); [done|].
    destruct (fetchWeatherFromAPI _ _ _ _ _) as [[e|r] w2] eqn:Hf.
    + destruct (Z.gtb_spec (cacheAge env cached) (60 * 60 * 1000)); [lia | done].
    + simpl. by rewrite (fetch_success_status cfg env _ _ _ r) by (by rewrite Hf).
  - destruct (fetchWeatherFromAPI _ _ _ _ _) as [[e|r] w2] eqn:Hf; [done|].
    simpl. by rewrite (fetch_success_status cfg env _ _ _ r) by (by rewrite Hf).
Qed.

Lemma found_age_bound_witness :
  cacheAge (Sample.at_time (Sample.minutes 20) Sample.down) Sample.cached
    <= Sample.minutes 60 ∧
  status_of (weatherGet Sample.cfg (Sample.at_time (Sample.minutes 20) Sample.down)
               Sample.celsius Sample.warm).1 ≠ Some "outdated".
Proof.
  assert (Hevs : Forall (writes_within 0)
            [EvWeatherGet (Sample.at_time 0 (Sample.answers (Sample.paris 21.34 70.4)))
               Sample.celsius]).
  { constructor; [|constructor]. vm_compute. discriminate. }
  destruct (found_age_bound Sample.cfg
              [EvWeatherGet (Sample.at_time 0 (Sample.answers (Sample.paris 21.34 70.4)))
                 Sample.celsius]
              0 (Sample.at_time (Sample.minutes 20) Sample.down) Sample.celsius Hevs)
    as [Hage Hstatus].
  split.
  - apply (Hage Sample.cached). reflexivity.
  - apply Hstatus. vm_compute. discriminate.
Defined.

(** C10, as stated, fails: with a time to live of 60 minutes, the clock
    ticks once between the read for [cacheTime] (0) and the read in [set]
    (1), and once between the read in [get] (3600001, the expiry) and the
    read for [now] (3600002); the reading is found, its age is above 60
    minutes and above the time to live, and with the upstream down
    [weatherGet] returns it with status "outdated". *)
Lemma outdated_within_ttl :
  let w := history Sample.cfg [EvWeatherGet Sample.ticking_write Sample.celsius] in
  SimpleCache.ttl (weatherCache w) = 60 * 60 * 1000 ∧
  clock_monotone Sample.ticking_write ∧
  clock_monotone Sample.ticking_read ∧
  cachedData Sample.ticking_read Sample.celsius w = Some Sample.cached ∧
  cacheAge Sample.ticking_read Sample.cached = 60 * 60 * 1000 + 2 ∧
  status_of (weatherGet Sample.cfg Sample.ticking_read Sample.celsius w).1
    = Some "outdated".
Proof. vm_compute. repeat split; discriminate. Qed.

(** * Further properties *)

(** ** The cache: sweep, delete, clear, overwriting, expiry *)

Module SimpleCacheMore.
Import SimpleCache.

Section More.
Context {T : Type}.
Implicit Types (c : t T) (key : string) (o : Op T) (e : CacheEntry T).

(** What the sweep leaves under a key. *)
Lemma lookup_sweep now key c :
  cache (sweep now c) !! key =
    match cache c !! key with
    | Some e => if now >? expiry e then None else Some e
    | None => None
    end.
Proof.
  unfold sweep. simpl.
  destruct (cache c !! key) as [e|] eqn:Hk.
  - destruct (Z.gtb_spec now (expiry e)).
    + apply map_lookup_filter_None. right. intros e' He'. simpl.
      rewrite Hk in He'. injection He' as <-. lia.
    + apply map_lookup_filter_Some. split; [done|]. simpl. lia.
  - apply map_lookup_filter_None. by left.
Qed.

Lemma get_fst now key c :
  (get now key c).1 =
    match cache c !! key with
    | Some e => if now >? expiry e then None else Some (value e)
    | None => None
    end.
Proof.
  unfold get. destruct (cache c !! key) as [e|]; [|done].
  by destruct (now >? expiry e).
Qed.

Lemma get_other now key key' c :
  key' ≠ key → cache (get now key c).2 !! key' = cache c !! key'.
Proof.
  intros Hne. unfold get. destruct (cache c !! key) as [e|]; [|done].
  destruct (now >? expiry e); [|done]. simpl. by rewrite lookup_delete_ne.
Qed.

Lemma set_by_step pre c o :
  set_by pre c → set_by (pre ++ [o])%list (step c o).
Proof.
  intros Hc key e Hk. rewrite SimpleCacheFacts.ttl_step.
  assert (Hold : cache c !! key = Some e →
    ∃ now, In (OpSet now key (value e)) (pre ++ [o])%list ∧ expiry e = now + ttl c).
  { intros H. destruct (Hc _ _ H) as (now & Hin & He).
    exists now. split; [|done]. apply in_or_app. by left. }
  destruct o as [now k v|now k|k| |now]; simpl in Hk.
  - apply lookup_insert_Some in Hk as [[-> <-]|[_ Hk]]; [|by apply Hold].
    exists now. split; [|done]. apply in_or_app. right. by left.
  - apply Hold. by apply SimpleCacheFacts.get_lookup_Some in Hk.
  - apply lookup_delete_Some in Hk as [_ Hk]. by apply Hold.
  - by rewrite lookup_empty in Hk.
  - apply Hold. by apply SimpleCacheFacts.sweep_lookup_Some in Hk.
Qed.

Lemma set_by_run ops pre c :
  set_by pre c → set_by (pre ++ ops)%list (run ops c).
Proof.
  revert pre c. induction ops as [|o ops IH]; intros pre c Hc.
  - by rewrite app_nil_r.
  - unfold run in *. simpl.
    replace (pre ++ o :: ops)%list with ((pre ++ [o]) ++ ops)%list
      by (by rewrite <- app_assoc).
    apply IH. by apply set_by_step.
Qed.

End More.

(** X1.  The sweep cannot be seen through [get]: a [get] that reads the
    clock no earlier than the sweep did returns the same with and without
    the sweep.  The sweep keeps exactly the entries that have not expired,
    as they are. *)
Theorem sweep_unseen (T : Type) (c : t T) (key : string) (now now' : Z) :
  now <= now' →
  (get now' key (sweep now c)).1 = (get now' key c).1 ∧
  (∀ e, cache (sweep now c) !! key = Some e ↔
        cache c !! key = Some e ∧ now <= expiry e).
Proof.
  intros Hle. split.
  - rewrite !get_fst, lookup_sweep.
    destruct (cache c !! key) as [e|]; [|done].
    destruct (Z.gtb_spec now (expiry e)); [|done].
    destruct (Z.gtb_spec now' (expiry e)); [done | lia].
  - intros e. rewrite lookup_sweep.
    destruct (cache c !! key) as [e'|]; [|by split; [|intros [? _]]].
    destruct (Z.gtb_spec now (expiry e')).
    + split; [done|]. intros [[= ->] ?]. lia.
    + split; [intros [= ->]; split; [done | lia] | by intros [? _]].
Qed.

Lemma sweep_unseen_witness :
  let c := set 1000 "paris" 21%Z (set 0 "oslo" 3%Z (new 1)) in
  (get 1500 "oslo" (sweep 1200 c)).1 = (get 1500 "oslo" c).1 ∧
  (get 1500 "paris" (sweep 1200 c)).1 = Some 21%Z.
Proof.
  intros c. split.
  - apply (sweep_unseen Z c "oslo" 1200 1500). vm_compute. discriminate.
  - rewrite (proj1 (sweep_unseen Z c "paris" 1200 1500 ltac:(vm_compute; discriminate))).
    reflexivity.
Defined.

(** X2.  After [delete(key)] a [get] of the key returns absent at every
    time and changes nothing; the [get] of every other key returns what it
    returned before.  After [clear()] the [get] of every key returns absent.
    Neither changes the time to live. *)
Theorem get_after_removal (T : Type) (c : t T) (key : string) (now : Z) :
  get now key (delete key c) = (None, delete key c) ∧
  (∀ key', key' ≠ key → (get now key' (delete key c)).1 = (get now key' c).1) ∧
  (∀ key', get now key' (clear c) = (None, clear c)) ∧
  ttl (delete key c) = ttl c ∧ ttl (clear c) = ttl c.
Proof.
  split; [|split; [|split]].
  - apply SimpleCacheFacts.get_absent. apply lookup_delete_eq.
  - intros key' Hne. rewrite !get_fst. unfold delete. simpl.
    by rewrite lookup_delete_ne.
  - intros key'. apply SimpleCacheFacts.get_absent. apply lookup_empty.
  - done.
Qed.

Lemma get_after_removal_witness :
  let c := set 0 "paris" 21%Z (set 0 "oslo" 3%Z (new 60)) in
  (get 10 "oslo" (delete "paris" c)).1 = (get 10 "oslo" c).1.
Proof.
  intros c.
  apply (proj1 (proj2 (get_after_removal Z c "paris" 10)) "oslo").
  discriminate.
Defined.

(** X3.  A [set] replaces what an earlier [set] of the same key stored, its
    expiry included; [set]s of different keys can be swapped; and a [set]
    leaves the [get] of every other key as it was. *)
Theorem set_overwrites (T : Type) (c : t T) (key : string) (v1 v2 : T)
    (now1 now2 : Z) :
  set now2 key v2 (set now1 key v1 c) = set now2 key v2 c ∧
  (∀ key' v' now',
     key' ≠ key →
     set now1 key v1 (set now' key' v' c) = set now' key' v' (set now1 key v1 c) ∧
     (get now' key' (set now1 key v1 c)).1 = (get now' key' c).1).
Proof.
  split.
  - unfold set. simpl. by rewrite insert_insert_eq.
  - intros key' v' now' Hne. split.
    + unfold set. simpl. f_equal. by apply insert_insert_ne.
    + rewrite !get_fst. unfold set. simpl. by rewrite lookup_insert_ne.
Qed.

Lemma set_overwrites_witness :
  let c := set 0 "paris" 20%Z (new 1) in
  set 5 "paris" 21%Z (set 900 "oslo" 3%Z c) = set 900 "oslo" 3%Z (set 5 "paris" 21%Z c) ∧
  (get 900 "oslo" (set 5 "paris" 21%Z c)).1 = (get 900 "oslo" c).1.
Proof.
  intros c.
  apply (proj2 (set_overwrites Z c "paris" 21 21 5 5) "oslo" 3%Z 900).
  discriminate.
Defined.



(** X5.  In a cache built from the constructor by any calls, the time to
    live is the constructor's argument times 1000, and every entry was
    stored by a [set] among the calls, with the value of that [set] and
    with an expiry one time to live after the clock value it read. *)
Theorem entries_come_from_sets (T : Type) (ttl_seconds : Z) (ops : list (Op T)) :
  let c := run ops (new ttl_seconds) in
  ttl c = ttl_seconds * 1000 ∧
  ∀ key e,
    cache c !! key = Some e →
    ∃ now, In (OpSet now key (value e)) ops ∧ expiry e = now + ttl_seconds * 1000.
Proof.
  intros c.
  assert (Httl : ttl c = ttl_seconds * 1000) by apply SimpleCacheFacts.ttl_run.
  split; [done|]. rewrite <- Httl.
  apply (set_by_run ops [] (new ttl_seconds)).
  intros key e Hk. simpl in Hk. by rewrite lookup_empty in Hk.
Qed.

Lemma entries_come_from_sets_witness :
  ∃ now, In (OpSet now "paris" 21%Z)
           [OpSet 7 "paris" 21%Z; OpSweep 9; OpGet 10 "oslo"]
         ∧ 1007 = now + 1 * 1000.
Proof.
  apply (proj2 (entries_come_from_sets Z 1
                  [OpSet 7 "paris" 21%Z; OpSweep 9; OpGet 10 "oslo"])
           "paris" (mkEntry 21%Z 1007)).
  reflexivity.
Defined.

End SimpleCacheMore.

(** ** The upstream fetch: errors *)

Section FetchMore.
Variable cfg : Config.
Variable env : Env.
Implicit Types (w : World) (location unit : string).

(** The fetch with a configured key, by the answer of the upstream. *)
Lemma fetch_configured location unit w :
  weather_apiKey cfg ≠ "" →
  fetchWeatherFromAPI cfg env location unit w =
    match request_url env (weather_apiUrl cfg) (weather_apiKey cfg) location with
    | None => (inl weatherApiRequestFailed, w)
    | Some url =>
    match upstream env url with
    | FetchRejected e => (inl (rethrown e), requested url w)
    | FetchResponse st json =>
        if ok st then
          match json with
          | inl e => (inl (rethrown e), requested url w)
          | inr data =>
              match Date_toISOString env
                      (ExternalWeatherAPIResponse.last_updated data) with
              | None => (inl weatherApiRequestFailed, requested url w)
              | Some ts =>
                  if out_of_range (extracted unit data)
                  then (inl temperatureOutOfRange, requested url w)
                  else (inr (reading_of unit data ts),
                        mkWorld
                          (SimpleCache.set (now_set env) (cacheKey location unit)
                             (cacheData (reading_of unit data ts) (now_cacheTime env))
                             (weatherCache w))
                          (url :: requests w))
              end
          end
        else (inl (if st =? 400 then locationNotFound else weatherApiRequestFailed),
              requested url w)
    end
    end.
Proof.
  intros Hkey. unfold fetchWeatherFromAPI.
  apply String.eqb_neq in Hkey. rewrite Hkey.
  unfold try_catch, fetchWeatherFromAPI_try, bind, fetch, throw, ret,
    weatherCache_set, rethrown, requested.
  destruct (request_url env _ _ _) as [url|]; [|done].
  destruct (upstream env _) as [e|st [e|data]]; cbn [negb].
  - by destruct (has_code e).
  - destruct (ok st); cbn [negb]; [by destruct (has_code e)|].
    by destruct (st =? 400).
  - destruct (ok st); cbn [negb]; [|by destruct (st =? 400)].
    destruct (Date_toISOString env _) as [ts|]; [|done]. cbv zeta.
    fold (extracted unit data). fold (out_of_range (extracted unit data)).
    by destruct (out_of_range _).
Qed.

Lemma fetch_unconfigured location unit w :
  weather_apiKey cfg = "" →
  fetchWeatherFromAPI cfg env location unit w = (inl weatherApiKeyNotConfigured, w).
Proof. intros Hkey. unfold fetchWeatherFromAPI. by rewrite Hkey. Qed.

Lemma rethrown_has_code e : has_code (rethrown e) = true.
Proof. unfold rethrown. by destruct (has_code e) eqn:H. Qed.

End FetchMore.

(** X6.  Every error that leaves [fetchWeatherFromAPI] carries a code, and
    the cache is as before.  The error is one of the four the function
    builds, or an error thrown by [fetch] or by [response.json()] that had
    a code already. *)
Theorem fetch_error_coded (cfg : Config) (env : Env) (location unit : string)
    (w w' : World) (e : JsError) :
  fetchWeatherFromAPI cfg env location unit w = (inl e, w') →
  has_code e = true ∧
  weatherCache w' = weatherCache w ∧
  (e = weatherApiKeyNotConfigured ∨ e = weatherApiRequestFailed ∨
   e = locationNotFound ∨ e = temperatureOutOfRange ∨
   ∃ url,
     request_url env (weather_apiUrl cfg) (weather_apiKey cfg) location = Some url ∧
     (upstream env url = FetchRejected e ∨
      ∃ st, upstream env url = FetchResponse st (inl e))).
Proof.
  intros H.
  destruct (decide (weather_apiKey cfg = "")) as [Hkey|Hkey].
  - rewrite (fetch_unconfigured cfg env _ _ _ Hkey) in H.
    injection H as <- <-. auto.
  - rewrite (fetch_configured cfg env _ _ _ Hkey) in H.
    destruct (request_url env _ _ _) as [url|] eqn:Hurl;
      [|injection H as <- <-; auto].
    assert (Hre : ∀ e0, rethrown e0 = e →
              has_code e = true ∧ (e = weatherApiRequestFailed ∨ e0 = e)).
    { intros e0 <-. split; [apply rethrown_has_code|].
      unfold rethrown. destruct (has_code e0); auto. }
    destruct (upstream env url) as [e0|st [e0|data]] eqn:Hup.
    + injection H as He <-. destruct (Hre _ He) as [? [->| ->]]; eauto 12.
    + destruct (ok st).
      * injection H as He <-. destruct (Hre _ He) as [? [->| ->]]; eauto 12.
      * injection H as <- <-. destruct (st =? 400); auto 10.
    + destruct (ok st).
      * destruct (Date_toISOString env _);
          [destruct (out_of_range _); [|done]|];
          injection H as <- <-; auto 10.
      * injection H as <- <-. destruct (st =? 400); auto 10.
Qed.

Lemma fetch_error_coded_witness :
  has_code weatherApiRequestFailed = true.
Proof.
  apply (fetch_error_coded Sample.cfg (Sample.at_time 0 Sample.down)
           "Paris" "celsius" (initial_world Sample.cfg)
           (requested Sample.url (initial_world Sample.cfg))
           weatherApiRequestFailed).
  reflexivity.
Defined.

(** X7.  With a configured key, an answer with a status outside 200..299
    makes the fetch fail, whatever the body: with "locationNotFound" and
    code LOCATION_NOT_FOUND for status 400, with "weatherApiRequestFailed"
    and code WEATHER_API_ERROR for every other status.  One request has
    been made and the cache is as before. *)
Theorem fetch_bad_status (cfg : Config) (env : Env) (location unit : string)
    (w : World) (url : string) (st : Z)
    (json : JsError + ExternalWeatherAPIResponse.t) :
  weather_apiKey cfg ≠ "" →
  request_url env (weather_apiUrl cfg) (weather_apiKey cfg) location = Some url →
  upstream env url = FetchResponse st json →
  ¬ (200 <= st <= 299) →
  fetchWeatherFromAPI cfg env location unit w =
    (inl (if decide (st = 400)
          then mkError "locationNotFound" (Some "LOCATION_NOT_FOUND")
          else mkError "weatherApiRequestFailed" (Some "WEATHER_API_ERROR")),
     mkWorld (weatherCache w) (url :: requests w)).
Proof.
  intros Hkey Hurl Hup Hst.
  rewrite (fetch_configured cfg env _ _ _ Hkey), Hurl, Hup.
  assert (Hok : ok st = false).
  { unfold ok. apply andb_false_iff.
    destruct (Z.leb_spec 200 st); [|by left].
    destruct (Z.leb_spec st 299); [lia | by right]. }
  rewrite Hok. destruct (Z.eqb_spec st 400) as [->|Hne].
  - done.
  - by rewrite decide_False.
Qed.

Lemma fetch_bad_status_witness :
  fetchWeatherFromAPI Sample.cfg
    (Sample.at_time 0 (λ _, FetchResponse 400 (inl (mkError "no body" None))))
    "Atlantis" "celsius" (initial_world Sample.cfg)
  = (inl (mkError "locationNotFound" (Some "LOCATION_NOT_FOUND")),
     mkWorld (weatherCache (initial_world Sample.cfg))
       ["https://api.example/current.json?key=secret&q=Atlantis&aqi=no"]).
Proof.
  apply (fetch_bad_status Sample.cfg
           (Sample.at_time 0 (λ _, FetchResponse 400 (inl (mkError "no body" None))))
           "Atlantis" "celsius" (initial_world Sample.cfg)
           "https://api.example/current.json?key=secret&q=Atlantis&aqi=no" 400
           (inl (mkError "no body" None))).
  - discriminate.
  - reflexivity.
  - reflexivity.
  - vm_compute. intros [_ H]. by apply H.
Defined.

(** X8.  With a configured key, a failure that is not the function's own
    (the request is rejected, the body of a 2xx answer cannot be read, or
    the date of the payload does not convert) leaves as
    "weatherApiRequestFailed" with code WEATHER_API_ERROR when the thrown
    error has no code; a thrown error that has a code leaves as it is. *)
Theorem fetch_failure_normalised (cfg : Config) (env : Env)
    (location unit : string) (w : World) (url : string) :
  let failed := mkError "weatherApiRequestFailed" (Some "WEATHER_API_ERROR") in
  weather_apiKey cfg ≠ "" →
  request_url env (weather_apiUrl cfg) (weather_apiKey cfg) location = Some url →
  (∀ e, upstream env url = FetchRejected e ∨
        (∃ st, upstream env url = FetchResponse st (inl e) ∧ ok st = true) →
        (fetchWeatherFromAPI cfg env location unit w).1
          = inl (if has_code e then e else failed)) ∧
  (∀ st data,
     upstream env url = FetchResponse st (inr data) → ok st = true →
     Date_toISOString env (ExternalWeatherAPIResponse.last_updated data) = None →
     (fetchWeatherFromAPI cfg env location unit w).1 = inl failed).
Proof.
  intros failed Hkey Hurl.
  rewrite (fetch_configured cfg env _ _ _ Hkey), Hurl. split.
  - intros e [Hup | (st & Hup & Hok)]; rewrite Hup; [done|]. by rewrite Hok.
  - intros st data Hup Hok Hts. by rewrite Hup, Hok, Hts.
Qed.

Lemma fetch_failure_normalised_witness :
  (fetchWeatherFromAPI Sample.cfg (Sample.at_time 0 Sample.down)
     "Paris" "celsius" (initial_world Sample.cfg)).1
  = inl (mkError "weatherApiRequestFailed" (Some "WEATHER_API_ERROR")).
Proof.
  apply (proj1 (fetch_failure_normalised Sample.cfg (Sample.at_time 0 Sample.down)
                  "Paris" "celsius" (initial_world Sample.cfg) Sample.url
                  ltac:(discriminate) eq_refl)
           (mkError "fetch failed" None)).
  left. reflexivity.
Defined.

(** X9.  On a 2xx answer with a payload whose date converts, the fetch
    fails exactly when the extracted value is below -90 or above 60, and
    then with "temperatureOutOfRange" and code VALIDATION_ERROR; the values
    -90 and 60 themselves pass.  An infinite value fails the same way; a
    value that is no number passes both comparisons and is returned as
    [NaN]. *)
Theorem fetch_range_check (cfg : Config) (env : Env) (location unit : string)
    (w : World) (url : string) (st : Z) (data : ExternalWeatherAPIResponse.t)
    (ts : string) :
  let t := if decide (unit = "fahrenheit")
           then ExternalWeatherAPIResponse.temp_f data
           else ExternalWeatherAPIResponse.temp_c data in
  let outcome := (fetchWeatherFromAPI cfg env location unit w).1 in
  let out_of_range_error :=
    mkError "temperatureOutOfRange" (Some "VALIDATION_ERROR") in
  weather_apiKey cfg ≠ "" →
  request_url env (weather_apiUrl cfg) (weather_apiKey cfg) location = Some url →
  upstream env url = FetchResponse st (inr data) →
  ok st = true →
  Date_toISOString env (ExternalWeatherAPIResponse.last_updated data) = Some ts →
  match t with
  | Finite q =>
      ((q < -90 ∨ 60 < q)%Q → outcome = inl out_of_range_error) ∧
      ((-90 <= q <= 60)%Q → ∃ reading, outcome = inr reading)
  | Infinity _ => outcome = inl out_of_range_error
  | NaN =>
      ∃ reading, outcome = inr reading ∧ WeatherResponse.temperature reading = NaN
  end.
Proof.
  intros t outcome out_of_range_error Hkey Hurl Hup Hok Hts.
  subst outcome out_of_range_error.
  rewrite (fetch_payload cfg env location unit w url st data ts) by done.
  assert (Ht : extracted unit data = t).
  { unfold extracted, t. apply if_eqb_decide. }
  unfold reading_of. rewrite Ht. destruct t as [|negative|q].
  - by eexists.
  - by destruct negative.
  - split.
    + intros Hout. apply out_of_range_iff in Hout. by rewrite Hout.
    + intros [Hlo Hhi]. destruct (out_of_range (Finite q)) eqn:Hr; [|by eexists].
      apply out_of_range_iff in Hr as [Hr|Hr]; exfalso.
      * by apply (Qlt_not_le _ _ Hr).
      * by apply (Qlt_not_le _ _ Hr).
Qed.

Lemma fetch_range_check_witness :
  ∃ reading,
    (fetchWeatherFromAPI Sample.cfg
       (Sample.at_time 0 (Sample.answers (Sample.paris 60 140)))
       "Paris" "celsius" (initial_world Sample.cfg)).1 = inr reading.
Proof.
  pose proof (fetch_range_check Sample.cfg
                (Sample.at_time 0 (Sample.answers (Sample.paris 60 140)))
                "Paris" "celsius" (initial_world Sample.cfg) Sample.url 200
                (Sample.paris 60 140) "2024-05-01T10:00:00.000Z") as H.
  repeat feed H. vm_compute in H. destruct H as [_ H].
  destruct H as [reading H]; [split; discriminate|].
  exists reading. vm_compute. exact H.
Defined.

(** X21.  When [encodeURIComponent] throws on the location, the fetch with a
    configured key fails with "weatherApiRequestFailed" and code
    WEATHER_API_ERROR before any request is made, and a call of [weatherGet]
    whose lookup finds nothing fails the same way. *)
Theorem fetch_uri_error (cfg : Config) (env : Env) (location unit : string)
    (w : World) :
  weather_apiKey cfg ≠ "" →
  encodeURIComponent env location = None →
  fetchWeatherFromAPI cfg env location unit w
    = (inl (mkError "weatherApiRequestFailed" (Some "WEATHER_API_ERROR")), w) ∧
  (cachedData env (WeatherGetRequest.mk location unit) w = None →
   (weatherGet cfg env (WeatherGetRequest.mk location unit) w).1
     = inl (mkError "weatherApiRequestFailed" (Some "WEATHER_API_ERROR")) ∧
   requests (weatherGet cfg env (WeatherGetRequest.mk location unit) w).2
     = requests w).
Proof.
  intros Hkey Henc.
  assert (Hf : ∀ w0, fetchWeatherFromAPI cfg env location unit w0
                     = (inl weatherApiRequestFailed, w0)).
  { intros w0. rewrite (fetch_configured cfg env _ _ _ Hkey).
    unfold request_url. by rewrite Henc. }
  split; [apply Hf|].
  intros Hc. rewrite weatherGet_eq. cbv zeta. rewrite Hc. simpl.
  by rewrite Hf.
Qed.

Lemma fetch_uri_error_witness :
  fetchWeatherFromAPI Sample.cfg
    (mkEnv 0 0 0 0 (Sample.answers (Sample.paris 21.34 70.4)) (λ _, None)
       (Date_toISOString (Sample.at_time 0 Sample.down)))
    "Paris" "celsius" (initial_world Sample.cfg)
  = (inl (mkError "weatherApiRequestFailed" (Some "WEATHER_API_ERROR")),
     initial_world Sample.cfg).
Proof.
  refine (proj1 (fetch_uri_error Sample.cfg
                   (mkEnv 0 0 0 0 (Sample.answers (Sample.paris 21.34 70.4))
                      (λ _, None)
                      (Date_toISOString (Sample.at_time 0 Sample.down)))
                   "Paris" "celsius" (initial_world Sample.cfg) _ eq_refl)).
  discriminate.
Defined.

(** ** The retrieval policy: requests, statuses, other keys *)

Section PolicyMore.
Variable cfg : Config.
Variable env : Env.
Implicit Types (w : World) (params : WeatherGetRequest.t).

Lemma fetch_requests location unit w :
  requests (fetchWeatherFromAPI cfg env location unit w).2 =
    if String.eqb (weather_apiKey cfg) ""
    then requests w
    else match request_url env (weather_apiUrl cfg) (weather_apiKey cfg) location with
         | Some url => url :: requests w
         | None => requests w
         end.
Proof.
  destruct (String.eqb_spec (weather_apiKey cfg) "") as [Hkey|Hkey].
  - by rewrite fetch_unconfigured.
  - rewrite fetch_configured by done.
    destruct (request_url env _ _ _) as [url|]; [|done].
    destruct (upstream env _) as [e|st [e|data]]; [done | by destruct (ok st) |].
    destruct (ok st); [|done].
    destruct (Date_toISOString env _); [|done]. by destruct (out_of_range _).
Qed.

Lemma after_lookup_requests params w :
  requests (after_lookup env params w) = requests w.
Proof. done. Qed.

Lemma after_lookup_other params w key :
  key ≠ cacheKey (WeatherGetRequest.location params) (WeatherGetRequest.unit params) →
  SimpleCache.cache (weatherCache (after_lookup env params w)) !! key
  = SimpleCache.cache (weatherCache w) !! key.
Proof. intros Hne. unfold after_lookup. simpl. by apply SimpleCacheMore.get_other. Qed.

(** A reading found by the lookup is the value of an entry of the cache. *)
Lemma cachedData_entry params w cached :
  cachedData env params w = Some cached →
  ∃ entry,
    SimpleCache.cache (weatherCache w)
      !! cacheKey (WeatherGetRequest.location params) (WeatherGetRequest.unit params)
      = Some entry ∧
    SimpleCache.value entry = cached ∧ now_get env <= SimpleCache.expiry entry.
Proof.
  unfold cachedData. intros H.
  by apply SimpleCacheFacts.get_fst_Some_inv in H as [_ ?].
Qed.

(** The state of [weatherGet] when it does fetch. *)
Lemma weatherGet_state params w :
  (weatherGet cfg env params w).2 =
    match cachedData env params w with
    | Some cached =>
        if cacheAge env cached <? 15 * 60 * 1000 then after_lookup env params w
        else (fetchWeatherFromAPI cfg env (WeatherGetRequest.location params)
                (WeatherGetRequest.unit params) (after_lookup env params w)).2
    | None => (fetchWeatherFromAPI cfg env (WeatherGetRequest.location params)
                 (WeatherGetRequest.unit params) (after_lookup env params w)).2
    end.
Proof.
  rewrite weatherGet_eq. cbv zeta.
  destruct (cachedData env params w) as [cached|]; [|done].
  destruct (_ <? _); [done|].
  by destruct (fetchWeatherFromAPI _ _ _ _ _) as [[e|r] w2].
Qed.

End PolicyMore.

(** X10.  A call of [weatherGet] makes no upstream request when the lookup
    finds a reading younger than 15 minutes, when no API key is configured,
    or when [encodeURIComponent] throws on the location; otherwise it makes
    exactly one request, to the URL of the location. *)
Theorem weatherGet_requests (cfg : Config) (env : Env)
    (params : WeatherGetRequest.t) (w : World) :
  let url := request_url env (weather_apiUrl cfg) (weather_apiKey cfg)
               (WeatherGetRequest.location params) in
  let fresh_hit :=
    match cachedData env params w with
    | Some cached => cacheAge env cached <? 15 * 60 * 1000
    | None => false
    end in
  requests (weatherGet cfg env params w).2 =
    if fresh_hit || String.eqb (weather_apiKey cfg) ""
    then requests w
    else match url with
         | Some url => url :: requests w
         | None => requests w
         end.
Proof.
  intros url fresh_hit. subst fresh_hit. rewrite weatherGet_state.
  destruct (cachedData env params w) as [cached|];
    [destruct (_ <? _); [done|]|]; by rewrite fetch_requests.
Qed.

(** X11.  After a call of [weatherGet] that fetched a reading, a second call
    for the same location and unit returns the same reading, status
    "online" included, without a request and without touching the state,
    provided its lookup reads the clock no later than one time to live after
    the write and its [now] is less than 15 minutes after the [cacheTime]. *)
Theorem weatherGet_served_again (cfg : Config) (env : Env)
    (params : WeatherGetRequest.t) (w w' : World) (reading : WeatherResponse.t) :
  (∀ cached, cachedData env params w = Some cached →
             15 * 60 * 1000 <= cacheAge env cached) →
  fetchWeatherFromAPI cfg env (WeatherGetRequest.location params)
    (WeatherGetRequest.unit params) (after_lookup env params w) = (inr reading, w') →
  weatherGet cfg env params w = (inr reading, w') ∧
  ∀ cfg' env',
    now_get env' <= now_set env + SimpleCache.ttl (weatherCache w) →
    now_weatherGet env' - now_cacheTime env < 15 * 60 * 1000 →
    weatherGet cfg' env' params w' = (inr reading, w').
Proof.
  intros Hold Hfetch. split.
  - rewrite weatherGet_eq. cbv zeta. rewrite Hfetch.
    destruct (cachedData env params w) as [cached|]; [|done].
    specialize (Hold cached eq_refl).
    destruct (Z.ltb_spec (cacheAge env cached) (15 * 60 * 1000)); [lia | done].
  - intros cfg' env' Hget Hnow.
    pose proof (fetch_cache cfg env (WeatherGetRequest.location params)
                  (WeatherGetRequest.unit params) (after_lookup env params w)) as Hc.
    rewrite Hfetch in Hc. simpl in Hc.
    assert (Hstatus : WeatherResponse.status reading = "online").
    { apply (fetch_success_status cfg env (WeatherGetRequest.location params)
               (WeatherGetRequest.unit params) (after_lookup env params w)).
      by rewrite Hfetch. }
    assert (Hfound : cachedData env' params w'
                     = Some (cacheData reading (now_cacheTime env))).
    { unfold cachedData. rewrite Hc, SimpleCacheMore.get_fst.
      unfold SimpleCache.set. simpl. rewrite lookup_insert_eq. simpl.
      rewrite SimpleCacheFacts.ttl_get.
      by destruct (Z.gtb_spec (now_get env')
                     (now_set env + SimpleCache.ttl (weatherCache w))); [lia|]. }
    rewrite weatherGet_eq. cbv zeta. rewrite Hfound.
    rewrite (after_lookup_found _ _ _ _ Hfound).
    unfold cacheAge, cacheData. simpl.
    destruct (Z.ltb_spec (now_weatherGet env' - now_cacheTime env) (15 * 60 * 1000));
      [|lia].
    unfold from_cache. simpl. destruct reading. simpl in *. by subst.
Qed.

Lemma weatherGet_served_again_witness :
  weatherGet Sample.cfg (Sample.at_time (Sample.minutes 10) Sample.down)
    Sample.celsius Sample.warm
  = (inr (WeatherResponse.mk (to_double 21.3) "°C" "Paris, France"
            "2024-05-01T10:00:00.000Z" "online"), Sample.warm).
Proof.
  refine (proj2 (weatherGet_served_again Sample.cfg
                   (Sample.at_time 0 (Sample.answers (Sample.paris 21.34 70.4)))
                   Sample.celsius (initial_world Sample.cfg) Sample.warm
                   (WeatherResponse.mk (to_double 21.3) "°C" "Paris, France"
                      "2024-05-01T10:00:00.000Z" "online") _ _)
            Sample.cfg (Sample.at_time (Sample.minutes 10) Sample.down) _ _).
  - intros cached H. discriminate H.
  - reflexivity.
  - vm_compute. discriminate.
  - reflexivity.
Defined.

(** X12.  A reading returned by [weatherGet] has status "online", "offline"
    or "outdated"; one whose status is not "online" is the reading the
    lookup found, returned after a fetch that failed. *)
Theorem weatherGet_status (cfg : Config) (env : Env)
    (params : WeatherGetRequest.t) (w w' : World) (reading : WeatherResponse.t) :
  weatherGet cfg env params w = (inr reading, w') →
  WeatherResponse.status reading = "online" ∨
  ((WeatherResponse.status reading = "offline" ∨
    WeatherResponse.status reading = "outdated") ∧
   ∃ cached error,
     cachedData env params w = Some cached ∧
     reading = from_cache cached (WeatherResponse.status reading) ∧
     fetchWeatherFromAPI cfg env (WeatherGetRequest.location params)
       (WeatherGetRequest.unit params) w = (inl error, w')).
Proof.
  rewrite weatherGet_eq. cbv zeta.
  destruct (cachedData env params w) as [cached|] eqn:Hc.
  - rewrite (after_lookup_found _ _ _ _ Hc).
    destruct (_ <? _); [intros [= <- <-]; by left|].
    destruct (fetchWeatherFromAPI _ _ _ _ _) as [[e|r] w2] eqn:Hf.
    + intros [= <- <-]. right. simpl. split.
      * destruct (_ >? _); auto.
      * by exists cached, e.
    + intros [= <- <-]. left.
      apply (fetch_success_status cfg env (WeatherGetRequest.location params)
               (WeatherGetRequest.unit params) w). by rewrite Hf.
  - intros Hf. left.
    apply (fetch_success_status cfg env (WeatherGetRequest.location params)
             (WeatherGetRequest.unit params) (after_lookup env params w)).
    by rewrite Hf.
Qed.

Lemma weatherGet_status_witness :
  WeatherResponse.status
    (WeatherResponse.mk (to_double 21.3) "°C" "Paris, France"
       "2024-05-01T10:00:00.000Z" "offline") = "online" ∨
  ((WeatherResponse.status
      (WeatherResponse.mk (to_double 21.3) "°C" "Paris, France"
         "2024-05-01T10:00:00.000Z" "offline") = "offline" ∨
    WeatherResponse.status
      (WeatherResponse.mk (to_double 21.3) "°C" "Paris, France"
         "2024-05-01T10:00:00.000Z" "offline") = "outdated") ∧
   ∃ cached error,
     cachedData (Sample.at_time (Sample.minutes 20) Sample.down)
       Sample.celsius Sample.warm = Some cached ∧
     WeatherResponse.mk (to_double 21.3) "°C" "Paris, France"
       "2024-05-01T10:00:00.000Z" "offline"
     = from_cache cached "offline" ∧
     fetchWeatherFromAPI Sample.cfg (Sample.at_time (Sample.minutes 20) Sample.down)
       "Paris" "celsius" Sample.warm
     = (inl error, requested Sample.url Sample.warm)).
Proof.
  apply (weatherGet_status Sample.cfg (Sample.at_time (Sample.minutes 20) Sample.down)
           Sample.celsius Sample.warm (requested Sample.url Sample.warm)).
  reflexivity.
Defined.

(** X13.  A call of [weatherGet] leaves the entries under every key other
    than the key of its location and unit as they were. *)
Theorem weatherGet_other_keys (cfg : Config) (env : Env)
    (params : WeatherGetRequest.t) (w : World) (key : string) :
  key ≠ cacheKey (WeatherGetRequest.location params) (WeatherGetRequest.unit params) →
  SimpleCache.cache (weatherCache (weatherGet cfg env params w).2) !! key
  = SimpleCache.cache (weatherCache w) !! key.
Proof.
  intros Hne. rewrite weatherGet_cache. cbv zeta.
  assert (Hfetch :
    SimpleCache.cache
      (weatherCache
         (fetchWeatherFromAPI cfg env (WeatherGetRequest.location params)
            (WeatherGetRequest.unit params) (after_lookup env params w)).2) !! key
    = SimpleCache.cache (weatherCache w) !! key).
  { rewrite fetch_cache.
    destruct (fetchWeatherFromAPI _ _ _ _ _).1 as [e|r]; simpl.
    - by apply after_lookup_other.
    - rewrite lookup_insert_ne by done. by apply after_lookup_other. }
  destruct (cachedData env params w) as [cached|]; [|done].
  destruct (_ <? _); [|done]. by apply after_lookup_other.
Qed.

Lemma weatherGet_other_keys_witness :
  SimpleCache.cache
    (weatherCache
       (weatherGet Sample.cfg
          (Sample.at_time (Sample.minutes 5) (Sample.answers (Sample.paris 21.34 70.4)))
          Sample.fahrenheit Sample.warm).2) !! "weather_Paris_celsius"
  = SimpleCache.cache (weatherCache Sample.warm) !! "weather_Paris_celsius".
Proof.
  apply (weatherGet_other_keys Sample.cfg
           (Sample.at_time (Sample.minutes 5) (Sample.answers (Sample.paris 21.34 70.4)))
           Sample.fahrenheit Sample.warm "weather_Paris_celsius").
  discriminate.
Defined.

(** ** Cache keys *)

Lemma chars_append (s t : string) :
  list_ascii_of_string (s ++ t)
  = (list_ascii_of_string s ++ list_ascii_of_string t)%list.
Proof. induction s as [|a s IH]; simpl; [done | by rewrite IH]. Qed.

Lemma chars_inj (s t : string) :
  list_ascii_of_string s = list_ascii_of_string t → s = t.
Proof.
  intros H. rewrite <- (string_of_list_ascii_of_string s),
    <- (string_of_list_ascii_of_string t). by rewrite H.
Qed.

(** X14.  For the two units the handler lets through, the cache key
    determines the location and the unit: two requests share an entry of
    the cache only if they are for the same location and the same unit. *)
Theorem cacheKey_inj (location1 unit1 location2 unit2 : string) :
  unit1 = "celsius" ∨ unit1 = "fahrenheit" →
  unit2 = "celsius" ∨ unit2 = "fahrenheit" →
  cacheKey location1 unit1 = cacheKey location2 unit2 →
  location1 = location2 ∧ unit1 = unit2.
Proof.
  intros Hu1 Hu2 H. unfold cacheKey in H.
  apply (f_equal list_ascii_of_string) in H.
  rewrite !chars_append in H.
  apply app_inv_head in H.
  destruct Hu1 as [-> | ->], Hu2 as [-> | ->].
  - apply app_inv_tail in H. split; [by apply chars_inj | done].
  - exfalso.
    change (list_ascii_of_string "_" ++ list_ascii_of_string "celsius")%list
      with (list_ascii_of_string "_celsiu" ++ list_ascii_of_string "s")%list in H.
    change (list_ascii_of_string "_" ++ list_ascii_of_string "fahrenheit")%list
      with (list_ascii_of_string "_fahrenhei" ++ list_ascii_of_string "t")%list in H.
    rewrite !app_assoc in H. by apply app_inj_tail in H as [_ ?].
  - exfalso.
    change (list_ascii_of_string "_" ++ list_ascii_of_string "celsius")%list
      with (list_ascii_of_string "_celsiu" ++ list_ascii_of_string "s")%list in H.
    change (list_ascii_of_string "_" ++ list_ascii_of_string "fahrenheit")%list
      with (list_ascii_of_string "_fahrenhei" ++ list_ascii_of_string "t")%list in H.
    rewrite !app_assoc in H. by apply app_inj_tail in H as [_ ?].
  - apply app_inv_tail in H. split; [by apply chars_inj | done].
Qed.

Lemma cacheKey_inj_witness :
  "Paris" = "Paris" ∧ "celsius" = "celsius".
Proof.
  apply (cacheKey_inj "Paris" "celsius" "Paris" "celsius").
  - by left.
  - by left.
  - reflexivity.
Defined.

(** ** Readings in the cache *)

Section PlausibleFacts.
Variable cfg : Config.
Implicit Types (c : SimpleCache.t CachedWeatherData.t) (w : World).

Lemma fetch_reading_plausible env location unit w reading :
  (fetchWeatherFromAPI cfg env location unit w).1 = inr reading →
  within_bounds (WeatherResponse.temperature reading) ∧
  (WeatherResponse.unit reading = "°C" ∨ WeatherResponse.unit reading = "°F").
Proof.
  destruct (fetchWeatherFromAPI cfg env location unit w) as [r w'] eqn:H.
  simpl. intros ->.
  apply fetch_success in H as (url & st & data & ts & _ & _ & _ & _ & Hr & ->).
  unfold reading_of. cbn [WeatherResponse.temperature WeatherResponse.unit]. split.
  - apply out_of_range_within in Hr.
    destruct (extracted unit data) as [|negative|q]; [done | done |].
    destruct (one_decimal q Hr) as (n & v & -> & -> & _ & _ & Hv). exact Hv.
  - destruct (String.eqb unit "fahrenheit"); auto.
Qed.

Lemma plausible_weatherGet env params w :
  plausible (weatherCache w) →
  plausible (weatherCache (weatherGet cfg env params w).2).
Proof.
  intros Hw.
  assert (H1 : plausible (weatherCache (after_lookup env params w))).
  { intros k e Hk. apply (Hw k).
    by apply SimpleCacheFacts.get_lookup_Some in Hk. }
  assert (Hf : plausible (weatherCache
      (fetchWeatherFromAPI cfg env (WeatherGetRequest.location params)
         (WeatherGetRequest.unit params) (after_lookup env params w)).2)).
  { rewrite fetch_cache.
    destruct (fetchWeatherFromAPI _ _ _ _ _).1 as [e|r] eqn:Hr; [done|].
    intros k e Hk.
    apply SimpleCacheFacts.set_lookup_Some in Hk as [[-> ->]|[_ Hk]].
    - simpl. by apply (fetch_reading_plausible env _ _ _ _ Hr).
    - by apply (H1 k). }
  rewrite weatherGet_cache.
  destruct (cachedData env params w) as [cached|]; [|done].
  by destruct (_ <? _).
Qed.

Lemma plausible_history evs : plausible (weatherCache (history cfg evs)).
Proof.
  unfold history.
  assert (H0 : plausible (weatherCache (initial_world cfg))).
  { intros k e Hk. simpl in Hk. by rewrite lookup_empty in Hk. }
  revert H0. generalize (initial_world cfg).
  induction evs as [|ev evs IH]; intros w Hw; [done|].
  simpl. apply IH. destruct ev as [env params|now]; simpl.
  - by apply plausible_weatherGet.
  - intros k e Hk. apply (Hw k).
    by apply SimpleCacheFacts.sweep_lookup_Some in Hk.
Qed.

End PlausibleFacts.

(** X15.  After any history of requests and sweeps, every reading that
    [weatherGet] returns, fetched or from the cache, has a temperature that
    is [NaN] (the payload had no number) or a number between -90 and 60, and
    the unit symbol "°C" or "°F". *)
Theorem weatherGet_plausible (cfg : Config) (evs : list Event) (env : Env)
    (params : WeatherGetRequest.t) (reading : WeatherResponse.t) :
  (weatherGet cfg env params (history cfg evs)).1 = inr reading →
  match WeatherResponse.temperature reading with
  | NaN => True
  | Infinity _ => False
  | Finite t => (-90 <= t <= 60)%Q
  end ∧
  (WeatherResponse.unit reading = "°C" ∨ WeatherResponse.unit reading = "°F").
Proof.
  pose proof (plausible_history cfg evs) as Hw.
  set (w := history cfg evs) in *.
  assert (Hcached : ∀ cached status,
    cachedData env params w = Some cached →
    within_bounds (WeatherResponse.temperature (from_cache cached status)) ∧
    (WeatherResponse.unit (from_cache cached status) = "°C" ∨
     WeatherResponse.unit (from_cache cached status) = "°F")).
  { intros cached status Hc.
    apply cachedData_entry in Hc as (entry & Hk & <- & _).
    apply (Hw _ _ Hk). }
  rewrite weatherGet_eq. cbv zeta.
  destruct (cachedData env params w) as [cached|] eqn:Hc.
  - destruct (_ <? _); [intros [= <-]; by apply Hcached|].
    destruct (fetchWeatherFromAPI _ _ _ _ _) as [[e|r] w2] eqn:Hf.
    + intros [= <-]. by apply Hcached.
    + intros [= <-].
      apply (fetch_reading_plausible cfg env (WeatherGetRequest.location params)
               (WeatherGetRequest.unit params) (after_lookup env params w)).
      by rewrite Hf.
  - apply fetch_reading_plausible.
Qed.

Lemma weatherGet_plausible_witness :
  match to_double 21.3 with
  | NaN => True
  | Infinity _ => False
  | Finite t => (-90 <= t <= 60)%Q
  end ∧ ("°C" = "°C" ∨ "°C" = "°F").
Proof.
  pose proof (weatherGet_plausible Sample.cfg
                [EvWeatherGet
                   (Sample.at_time 0 (Sample.answers (Sample.paris 21.34 70.4)))
                   Sample.celsius]
                (Sample.at_time (Sample.minutes 20) Sample.down) Sample.celsius
                (WeatherResponse.mk (to_double 21.3) "°C" "Paris, France"
                   "2024-05-01T10:00:00.000Z" "offline")) as H.
  repeat feed H. exact H.
Defined.

(** ** The handler: what a request gets *)

Section HandlerMore.
Variable cfg : Config.
Variable env : Env.
Implicit Types (w : World) (query : Query).

(** A query that passes both checks gets the reply made of the outcome of
    [weatherGet]. *)
Lemma getHandler_valid query location unit w :
  valid_query query location unit →
  getHandler cfg env query w =
    (reply_of (weatherGet cfg env (WeatherGetRequest.mk location unit) w).1,
     (weatherGet cfg env (WeatherGetRequest.mk location unit) w).2).
Proof.
  destruct query as [qlocation qunit].
  intros (Hl & Hne & Hu). simpl in Hl, Hu. subst qlocation.
  unfold getHandler. simpl.
  apply String.eqb_neq in Hne. rewrite Hne.
  destruct Hu as [[-> ->] | [-> [-> | ->]]]; simpl;
    (destruct (weatherGet _ _ _ _) as [[error|reading] w']; simpl; [|done]);
    (destruct (code_is error "WEATHER_API_ERROR"); [done|]);
    by destruct (code_is error "LOCATION_NOT_FOUND").
Qed.

(** A query that fails a check is answered 400; otherwise it is valid. *)
Lemma getHandler_cases query w :
  (∃ msg, getHandler cfg env query w
          = (Json 400 (errorResponse msg "VALIDATION_ERROR"), w)) ∨
  ∃ location unit, valid_query query location unit.
Proof.
  destruct query as [qlocation qunit]. unfold getHandler, valid_query. simpl.
  destruct qlocation as [[location| |]|]; simpl; eauto.
  destruct (String.eqb_spec location "") as [->|Hne]; eauto.
  destruct qunit as [[unit| |]|]; simpl; eauto 10.
  destruct (String.eqb_spec unit "celsius") as [->|Hc]; simpl; eauto 10.
  destruct (String.eqb_spec unit "fahrenheit") as [->|Hf]; simpl; eauto 10.
Qed.

Lemma weatherGet_found params w cached :
  cachedData env params w = Some cached →
  ∃ reading, (weatherGet cfg env params w).1 = inr reading.
Proof.
  intros Hc. rewrite weatherGet_eq. cbv zeta. rewrite Hc.
  destruct (_ <? _); [by eexists|].
  destruct (fetchWeatherFromAPI _ _ _ _ _) as [[e|r] w2]; by eexists.
Qed.

End HandlerMore.

(** X16.  Without a configured API key, a valid request for which the
    lookup finds nothing is answered 503 with the message
    "weatherApiKeyNotConfigured" in an EXTERNAL_API_ERROR envelope, and no
    upstream request is made. *)
Theorem getHandler_no_key (cfg : Config) (env : Env) (query : Query)
    (location unit : string) (w : World) :
  valid_query query location unit →
  weather_apiKey cfg = "" →
  cachedData env (WeatherGetRequest.mk location unit) w = None →
  (getHandler cfg env query w).1
    = Json 503 (errorResponse "weatherApiKeyNotConfigured" "EXTERNAL_API_ERROR") ∧
  requests (getHandler cfg env query w).2 = requests w.
Proof.
  intros Hq Hkey Hc. rewrite (getHandler_valid cfg env _ _ _ _ Hq). simpl.
  rewrite weatherGet_eq. cbv zeta. rewrite Hc.
  by rewrite fetch_unconfigured.
Qed.

Lemma getHandler_no_key_witness :
  (getHandler (mkConfig "" "https://api.example" 3600 600)
     (Sample.at_time 0 (Sample.answers (Sample.paris 21.34 70.4)))
     (mkQuery (Some (QString "Paris")) None)
     (initial_world (mkConfig "" "https://api.example" 3600 600))).1
  = Json 503 (errorResponse "weatherApiKeyNotConfigured" "EXTERNAL_API_ERROR").
Proof.
  refine (proj1 (getHandler_no_key (mkConfig "" "https://api.example" 3600 600)
                   (Sample.at_time 0 (Sample.answers (Sample.paris 21.34 70.4)))
                   (mkQuery (Some (QString "Paris")) None) "Paris" "celsius"
                   (initial_world (mkConfig "" "https://api.example" 3600 600))
                   _ eq_refl eq_refl)).
  split; [reflexivity|]. split; [discriminate|]. left. by split.
Defined.

(** X17.  An out-of-range temperature is not answered by the handler: for a
    valid request for which the lookup finds nothing, when the upstream
    payload has a value below -90 or above 60 (an infinite one included),
    the handler makes no reply and passes the error "temperatureOutOfRange"
    with code VALIDATION_ERROR to [next]. *)
Theorem getHandler_out_of_range (cfg : Config) (env : Env) (query : Query)
    (location unit : string) (w : World) (url : string)
    (st : Z) (data : ExternalWeatherAPIResponse.t) (ts : string) :
  let t := if decide (unit = "fahrenheit")
           then ExternalWeatherAPIResponse.temp_f data
           else ExternalWeatherAPIResponse.temp_c data in
  valid_query query location unit →
  cachedData env (WeatherGetRequest.mk location unit) w = None →
  weather_apiKey cfg ≠ "" →
  request_url env (weather_apiUrl cfg) (weather_apiKey cfg) location = Some url →
  upstream env url = FetchResponse st (inr data) →
  ok st = true →
  Date_toISOString env (ExternalWeatherAPIResponse.last_updated data) = Some ts →
  match t with
  | Finite q => (q < -90 ∨ 60 < q)%Q
  | Infinity _ => True
  | NaN => False
  end →
  (getHandler cfg env query w).1
    = Next (mkError "temperatureOutOfRange" (Some "VALIDATION_ERROR")).
Proof.
  intros t Hq Hc Hkey Hurl Hup Hok Hts Ht.
  rewrite (getHandler_valid cfg env _ _ _ _ Hq).
  rewrite weatherGet_eq. cbv zeta. rewrite Hc.
  cbn [WeatherGetRequest.location WeatherGetRequest.unit].
  rewrite (fetch_payload cfg env location unit _ url st data ts) by done.
  assert (Hr : out_of_range (extracted unit data) = true).
  { unfold extracted. rewrite if_eqb_decide. fold t.
    destruct t as [|negative|q]; [done | by destruct negative |].
    by apply out_of_range_iff. }
  by rewrite Hr.
Qed.

Lemma getHandler_out_of_range_witness :
  (getHandler Sample.cfg (Sample.at_time 0 (Sample.answers (Sample.paris 65 149)))
     (mkQuery (Some (QString "Paris")) (Some (QString "celsius")))
     (initial_world Sample.cfg)).1
  = Next (mkError "temperatureOutOfRange" (Some "VALIDATION_ERROR")).
Proof.
  pose proof (getHandler_out_of_range Sample.cfg
                (Sample.at_time 0 (Sample.answers (Sample.paris 65 149)))
                (mkQuery (Some (QString "Paris")) (Some (QString "celsius")))
                "Paris" "celsius" (initial_world Sample.cfg) Sample.url 200
                (Sample.paris 65 149) "2024-05-01T10:00:00.000Z") as H.
  cbv zeta in H.
  assert (Hq : valid_query (mkQuery (Some (QString "Paris")) (Some (QString "celsius")))
                 "Paris" "celsius").
  { split; [reflexivity|]. split; [discriminate|]. right. split; [reflexivity | by left]. }
  specialize (H Hq). repeat feed H.
  apply H. vm_compute. right. reflexivity.
Defined.

(** X18.  Once the lookup finds a reading, a valid request is answered 200
    with a reading in the success envelope, whatever the upstream does and
    whether or not an API key is configured. *)
Theorem getHandler_found (cfg : Config) (env : Env) (query : Query)
    (location unit : string) (w : World) (cached : CachedWeatherData.t) :
  valid_query query location unit →
  cachedData env (WeatherGetRequest.mk location unit) w = Some cached →
  ∃ reading, (getHandler cfg env query w).1 = Json 200 (successResponse reading).
Proof.
  intros Hq Hc. rewrite (getHandler_valid cfg env _ _ _ _ Hq). simpl.
  destruct (weatherGet_found cfg env _ _ _ Hc) as [reading ->]. by exists reading.
Qed.

Lemma getHandler_found_witness :
  ∃ reading,
    (getHandler Sample.cfg (Sample.at_time (Sample.minutes 50) Sample.down)
       (mkQuery (Some (QString "Paris")) None) Sample.warm).1
    = Json 200 (successResponse reading).
Proof.
  refine (getHandler_found Sample.cfg (Sample.at_time (Sample.minutes 50) Sample.down)
            (mkQuery (Some (QString "Paris")) None) "Paris" "celsius"
            Sample.warm Sample.cached _ eq_refl).
  split; [reflexivity|]. split; [discriminate|]. left. by split.
Defined.

(** X19.  The handler replies with status 200, 400, 404 or 503 and no
    other.  It calls [next] only for a valid request on which [weatherGet]
    failed with an error whose code is neither WEATHER_API_ERROR nor
    LOCATION_NOT_FOUND. *)
Theorem getHandler_outcomes (cfg : Config) (env : Env) (query : Query) (w : World) :
  match (getHandler cfg env query w).1 with
  | Json http_status _ =>
      http_status = 200 ∨ http_status = 400 ∨ http_status = 404 ∨ http_status = 503
  | Next error =>
      ∃ location unit,
        valid_query query location unit ∧
        (weatherGet cfg env (WeatherGetRequest.mk location unit) w).1 = inl error ∧
        code error ≠ Some "WEATHER_API_ERROR" ∧
        code error ≠ Some "LOCATION_NOT_FOUND"
  end.
Proof.
  destruct (getHandler_cases cfg env query w) as [[msg ->] | (location & unit & Hq)].
  - simpl. auto.
  - rewrite (getHandler_valid cfg env _ _ _ _ Hq). simpl.
    destruct (weatherGet _ _ _ _).1 as [error|reading] eqn:Hr; simpl; [|auto].
    unfold code_is.
    destruct (code error) as [c|] eqn:Hcode.
    + destruct (String.eqb_spec c "WEATHER_API_ERROR") as [->|H1]; [auto|].
      destruct (String.eqb_spec c "LOCATION_NOT_FOUND") as [->|H2]; [auto|].
      exists location, unit. split; [done|]. split; [done|].
      split; intros H; rewrite Hcode in H; injection H as H; contradiction.
    + exists location, unit. split; [done|]. split; [done|].
      split; intros H; rewrite Hcode in H; discriminate.
Qed.

(** ** The sweep and the requests *)

Lemma fetch_outcome_any_state (cfg : Config) (env : Env) (location unit : string)
    (w w0 : World) :
  (fetchWeatherFromAPI cfg env location unit w).1
  = (fetchWeatherFromAPI cfg env location unit w0).1.
Proof.
  destruct (decide (weather_apiKey cfg = "")) as [Hkey|Hkey].
  - by rewrite !fetch_unconfigured.
  - rewrite !fetch_configured by done.
    destruct (request_url env _ _ _) as [url|]; [|done].
    destruct (upstream env _) as [e|st [e|data]]; [done | by destruct (ok st) |].
    destruct (ok st); [|done].
    destruct (Date_toISOString env _); [|done]. by destruct (out_of_range _).
Qed.

(** X20.  A run of the sweep does not change what a later request returns:
    when the lookup of [weatherGet] reads the clock no earlier than the sweep
    did, the outcome is the same with and without the sweep. *)
Theorem sweep_unseen_by_weatherGet (cfg : Config) (env : Env)
    (params : WeatherGetRequest.t) (w : World) (now : Z) :
  now <= now_get env →
  (weatherGet cfg env params (exec cfg w (EvSweep now))).1
  = (weatherGet cfg env params w).1.
Proof.
  intros Hle. simpl.
  set (w_swept := mkWorld (SimpleCache.sweep now (weatherCache w)) (requests w)).
  assert (Hc : cachedData env params w_swept = cachedData env params w).
  { unfold cachedData, w_swept. simpl.
    rewrite !SimpleCacheMore.get_fst, SimpleCacheMore.lookup_sweep.
    destruct (SimpleCache.cache (weatherCache w) !! _) as [e|]; [|done].
    destruct (Z.gtb_spec now (SimpleCache.expiry e)); [|done].
    destruct (Z.gtb_spec (now_get env) (SimpleCache.expiry e)); [done | lia]. }
  rewrite !weatherGet_eq. cbv zeta. rewrite Hc.
  pose proof (fetch_outcome_any_state cfg env (WeatherGetRequest.location params)
                (WeatherGetRequest.unit params)
                (after_lookup env params w_swept) (after_lookup env params w)) as Hf.
  destruct (cachedData env params w) as [cached|]; [|done].
  destruct (_ <? _); [done|].
  destruct (fetchWeatherFromAPI cfg env _ _ (after_lookup env params w_swept))
    as [[e1|r1] w1];
  destruct (fetchWeatherFromAPI cfg env _ _ (after_lookup env params w))
    as [[e2|r2] w2]; simpl in *; congruence.
Qed.

Lemma sweep_unseen_by_weatherGet_witness :
  (weatherGet Sample.cfg (Sample.at_time (Sample.minutes 61) Sample.down)
     Sample.celsius (exec Sample.cfg Sample.warm (EvSweep (Sample.minutes 61)))).1
  = (weatherGet Sample.cfg (Sample.at_time (Sample.minutes 61) Sample.down)
       Sample.celsius Sample.warm).1.
Proof.
  apply (sweep_unseen_by_weatherGet Sample.cfg
           (Sample.at_time (Sample.minutes 61) Sample.down)
           Sample.celsius Sample.warm (Sample.minutes 61)).
  vm_compute. discriminate.
Defined.
